(** * Custom IC source: streaming packet framer and sample decoder

    Shallow embedding of [CustomIC::ProtocolParser] and of the publishing
    part of [CustomICThread::updateBuffer] (CustomICThread.cpp / .h).

    Conventions:
    - [uint8_t] is a [Z] in [0, 256); [int], [int32_t] and [int64] are [Z],
      with the casts of the source written out ([wrap16], [wrap32],
      [size_t_of_int]);
    - [float] is IEEE binary32 and [double] is IEEE binary64, both through
      the executable specification of [SpecFloat] (round to nearest even);
    - [std::vector<uint8_t>] is a [list uint8], front of the vector first;
    - the [while] loop of [parse] is a fuelled recursion over one iteration
      ([loop_body]); reads outside the vector and the exception of
      [resize] are the [Fault] outcome. *)

From Stdlib Require Import ZArith List Bool Lia.
From Stdlib Require Import Floats.SpecFloat.
Import ListNotations.

Local Open Scope Z_scope.

(* ================================================================== *)
(** ** Machine types *)
(* ================================================================== *)

Definition uint8 := Z.

Definition is_byte (b : Z) : Prop := 0 <= b < 256.

(** [(int16_t) z] and the conversion of a 32-bit pattern to [int32_t] *)
Definition wrap16 (z : Z) : Z := (z + 32768) mod 65536 - 32768.
Definition wrap32 (z : Z) : Z := (z + 2147483648) mod 4294967296 - 2147483648.

(** [(size_t) z] for an [int] z, on a 64-bit target *)
Definition size_t_of_int (z : Z) : Z := z mod 2 ^ 64.

(** IEEE binary32 ([float]) *)
Definition float32 := spec_float.
Definition f32_mul : float32 -> float32 -> float32 := SFmul 24 128.
Definition f32_div : float32 -> float32 -> float32 := SFdiv 24 128.
Definition f32_of_int (z : Z) : float32 := binary_normalize 24 128 z 0 false.
Definition f32_zero : float32 := S754_zero false.

(** IEEE binary64 ([double]) *)
Definition float64 := spec_float.
Definition f64_div : float64 -> float64 -> float64 := SFdiv 53 1024.
Definition f64_sub : float64 -> float64 -> float64 := SFsub 53 1024.
Definition f64_ltb : float64 -> float64 -> bool := SFltb.
Definition f64_of_int (z : Z) : float64 := binary_normalize 53 1024 z 0 false.
Definition f64_zero : float64 := S754_zero false.

(* ================================================================== *)
(** ** namespace CustomIC: the protocol parser *)
(* ================================================================== *)

Module CustomIC.

(** [struct DataPacket] *)
Record DataPacket := mkDataPacket {
  samples : list float32;
  timestamp : Z;
  valid : bool
}.

(** [class ProtocolParser], its protected fields *)
Record ProtocolParser := mkProtocolParser {
  numChannels : Z;
  bytesPerSample : Z;
  scaleFactor : float32;
  syncByte1 : uint8;
  syncByte2 : uint8;
  useChecksum : bool;
  buffer : list uint8
}.

Definition MAX_BUFFER_SIZE : Z := 65536.

(** [0.195f] *)
Definition default_scaleFactor : float32 :=
  Eval vm_compute in f32_div (f32_of_int 195) (f32_of_int 1000).

(** [ProtocolParser::ProtocolParser()] with the in-class initialisers *)
Definition new_parser : ProtocolParser :=
  mkProtocolParser 8 2 default_scaleFactor 0xA0 0x5A true [].

Definition set_buffer (p : ProtocolParser) (b : list uint8) : ProtocolParser :=
  mkProtocolParser (numChannels p) (bytesPerSample p) (scaleFactor p)
                   (syncByte1 p) (syncByte2 p) (useChecksum p) b.

Definition configure (p : ProtocolParser) (channels bytes : Z) (scale : float32)
  : ProtocolParser :=
  mkProtocolParser channels bytes scale
                   (syncByte1 p) (syncByte2 p) (useChecksum p) (buffer p).

Definition setSyncBytes (p : ProtocolParser) (sync1 sync2 : uint8)
  : ProtocolParser :=
  mkProtocolParser (numChannels p) (bytesPerSample p) (scaleFactor p)
                   sync1 sync2 (useChecksum p) (buffer p).

(** [2 + (numChannels * bytesPerSample) + (useChecksum ? 1 : 0)] in [int];
    the product stays inside [int] for every configuration the plugin can
    set (see [valid_config]). *)
Definition getPacketSize (p : ProtocolParser) : Z :=
  2 + (numChannels p * bytesPerSample p) + (if useChecksum p then 1 else 0).

Definition reset (p : ProtocolParser) : ProtocolParser := set_buffer p [].

(** One turn of the appending loop: [push_back], then drop the oldest byte
    when the size went over the cap. *)
Definition push_capped (buf : list uint8) (b : uint8) : list uint8 :=
  let buf' := buf ++ [b] in
  if MAX_BUFFER_SIZE <? Z.of_nat (length buf') then tl buf' else buf'.

Definition append_data (buf data : list uint8) : list uint8 :=
  fold_left push_capped data buf.

(** [bytes[i]], a read through the raw pointer (callers stay in range) *)
Definition byte_at (bytes : list uint8) (i : nat) : uint8 := nth i bytes 0.

(** The [switch] of [bytesToSample]: [Some rawValue], or [None] for the
    [default] branch. *)
Definition rawValue_of (bytes : list uint8) (numBytes : Z) : option Z :=
  match numBytes with
  | 2 =>
      Some (wrap16 (Z.lor (Z.shiftl (byte_at bytes 0) 8) (byte_at bytes 1)))
  | 3 =>
      let r := Z.lor (Z.lor (Z.shiftl (byte_at bytes 0) 16)
                            (Z.shiftl (byte_at bytes 1) 8))
                     (byte_at bytes 2) in
      Some (if Z.land r 0x800000 =? 0 then r
            else wrap32 (Z.lor r 0xFF000000))
  | 4 =>
      Some (wrap32 (Z.lor (Z.lor (Z.lor (Z.shiftl (byte_at bytes 0) 24)
                                        (Z.shiftl (byte_at bytes 1) 16))
                                 (Z.shiftl (byte_at bytes 2) 8))
                          (byte_at bytes 3)))
  | _ => None
  end.

Definition bytesToSample (p : ProtocolParser) (bytes : list uint8) (numBytes : Z)
  : float32 :=
  match rawValue_of bytes numBytes with
  | Some rawValue => f32_mul (f32_of_int rawValue) (scaleFactor p)
  | None => f32_zero
  end.

(** [checksum ^= packet[i]] for [i < size - 1] *)
Definition xor_bytes (bs : list uint8) : uint8 := fold_left Z.lxor bs 0.

(** [validateChecksum(packet, size)]; [None] when [size <= 0], where
    [packet[size - 1]] is read before the start of the vector. *)
Definition validateChecksum (packet : list uint8) (size : Z) : option bool :=
  if size <=? 0 then None
  else
    let n := Z.to_nat (size - 1) in
    Some (xor_bytes (firstn n packet) =? byte_at packet n).

Inductive scan_result : Type :=
| Found (syncPos : nat)
| NotFound
| OutOfRange.

Definition shift_found (r : scan_result) : scan_result :=
  match r with
  | Found i => Found (S i)
  | other => other
  end.

(** The sync search [for (i = 0; i <= buffer.size() - packetSize; i++)],
    run for [n] turns over the rest [l] of the vector; [&&] reads
    [buffer[i + 1]] only after [buffer[i] == syncByte1]. *)
Fixpoint find_sync (s1 s2 : uint8) (n : nat) (l : list uint8) : scan_result :=
  match n with
  | O => NotFound
  | S n' =>
      match l with
      | [] => OutOfRange
      | a :: l' =>
          if a =? s1 then
            match l' with
            | [] => OutOfRange
            | b :: _ =>
                if b =? s2 then Found 0
                else shift_found (find_sync s1 s2 n' l')
            end
          else shift_found (find_sync s1 s2 n' l')
      end
  end.

(** The channel loop of [parse]: [samplePtr] advances by [bytesPerSample]. *)
Fixpoint decode_channels (p : ProtocolParser) (n : nat) (samplePtr : list uint8)
  : list float32 :=
  match n with
  | O => []
  | S n' =>
      bytesToSample p samplePtr (bytesPerSample p)
      :: decode_channels p n' (skipn (Z.to_nat (bytesPerSample p)) samplePtr)
  end.

(** The packet built from the front of the buffer (sync bytes skipped). *)
Definition decode_packet (p : ProtocolParser) (buf : list uint8) : DataPacket :=
  mkDataPacket (decode_channels p (Z.to_nat (numChannels p)) (skipn 2 buf)) 0 true.

Inductive iter_result : Type :=
| Exit (buf : list uint8)
| Retry (buf : list uint8)
| Emit (pkt : DataPacket) (buf : list uint8)
| Fault.

(** One evaluation of the [while] condition and, when it holds, of the
    loop body.  [Exit]: the condition failed or a [break] was taken;
    [Retry]: the [continue] of the bad-checksum branch; [Emit]: a packet
    was pushed and removed from the buffer; [Fault]: the search or the
    checksum read outside the vector (possible only for a packet size
    below 2), or [samples.resize] was given a negative channel count. *)
Definition loop_body (p : ProtocolParser) (buf : list uint8) : iter_result :=
  let packetSize := getPacketSize p in
  let psz := size_t_of_int packetSize in
  if Z.of_nat (length buf) <? psz then Exit buf
  else
    match find_sync (syncByte1 p) (syncByte2 p)
                    (S (length buf - Z.to_nat psz)) buf with
    | OutOfRange => Fault
    | NotFound =>
        Exit (if (2 <? length buf)%nat then skipn (length buf - 2) buf else buf)
    | Found syncPos =>
        let buf1 := skipn syncPos buf in
        if Z.of_nat (length buf1) <? psz then Exit buf1
        else
          let bad :=
            if useChecksum p then
              match validateChecksum buf1 packetSize with
              | Some ok => Some (negb ok)
              | None => None
              end
            else Some false in
          match bad with
          | None => Fault
          | Some true => Retry (tl buf1)
          | Some false =>
              if numChannels p <? 0 then Fault
              else Emit (decode_packet p buf1) (skipn (Z.to_nat packetSize) buf1)
          end
    end.

Inductive outcome : Type :=
| Done (packets : list DataPacket) (buf : list uint8)
| Faulted
| OutOfFuel.

(** The [while] loop, [fuel] bounding the number of turns. *)
Fixpoint parse_loop (fuel : nat) (p : ProtocolParser) (buf : list uint8)
         (packets : list DataPacket) : outcome :=
  match fuel with
  | O => OutOfFuel
  | S fuel' =>
      match loop_body p buf with
      | Exit buf' => Done packets buf'
      | Retry buf' => parse_loop fuel' p buf' packets
      | Emit pkt buf' => parse_loop fuel' p buf' (packets ++ [pkt])
      | Fault => Faulted
      end
  end.

(** [parse(data, numBytes)] on the buffer: append with the cap, then the
    loop; every turn that does not leave the loop shortens the buffer, so
    one more turn than its length is allowed. *)
Definition parse_buffer (p : ProtocolParser) (data : list uint8) : outcome :=
  let buf := append_data (buffer p) data in
  parse_loop (S (length buf)) p buf [].

(** [parse] as a state transformer: the parser after the call and the
    returned vector. *)
Definition parse (p : ProtocolParser) (data : list uint8)
  : option (ProtocolParser * list DataPacket) :=
  match parse_buffer p data with
  | Done packets buf => Some (set_buffer p buf, packets)
  | Faulted | OutOfFuel => None
  end.

(** Successive [parse] calls, one per chunk, the returned vectors
    concatenated in call order. *)
Fixpoint parse_chunks (p : ProtocolParser) (chunks : list (list uint8))
  : option (ProtocolParser * list DataPacket) :=
  match chunks with
  | [] => Some (p, [])
  | c :: rest =>
      match parse p c with
      | None => None
      | Some (p1, pk1) =>
          match parse_chunks p1 rest with
          | None => None
          | Some (p2, pk2) => Some (p2, pk1 ++ pk2)
          end
      end
  end.

(** The public operations of the class, as data. *)
Inductive operation : Type :=
| OpConfigure (channels bytes : Z) (scale : float32)
| OpSetSyncBytes (sync1 sync2 : uint8)
| OpReset
| OpParse (data : list uint8).

(** [None]: the call faulted (nothing is known of the state after it). *)
Definition apply_operation (p : ProtocolParser) (o : operation)
  : option ProtocolParser :=
  match o with
  | OpConfigure c b s => Some (configure p c b s)
  | OpSetSyncBytes s1 s2 => Some (setSyncBytes p s1 s2)
  | OpReset => Some (reset p)
  | OpParse data =>
      match parse p data with
      | Some (p', _) => Some p'
      | None => None
      end
  end.

Fixpoint apply_operations (p : ProtocolParser) (ops : list operation)
  : option ProtocolParser :=
  match ops with
  | [] => Some p
  | o :: rest =>
      match apply_operation p o with
      | Some p' => apply_operations p' rest
      | None => None
      end
  end.

End CustomIC.

Import CustomIC.

(* ================================================================== *)
(** ** CustomICThread: sample counter, timestamp anchor, publishing *)
(* ================================================================== *)


(** [int bufferSize = 1024], the length of [sampleNumbers] and
    [timestampBuffer] *)
Definition bufferSize : Z := 1024.

(** The promotion of a [float] operand to [double] *)
Definition f64_of_f32 (x : float32) : float64 :=
  match x with
  | S754_finite s m e => binary_normalize 53 1024 (cond_Zopp s (Zpos m)) e false
  | other => other
  end.

(** The fields of [CustomICThread] that the live publishing path reads or
    writes; the two arrays are maps from index to content. *)
Record CustomICThread := mkCustomICThread {
  parser : ProtocolParser;
  sampleRate : float32;
  totalSamples : Z;
  initialTimestamp : float64;
  sampleNumbers : nat -> Z;
  timestampBuffer : nat -> float64
}.

(** One published block: what [addToBuffer] receives, [numPackets] entries
    of each array. *)
Record Batch := mkBatch {
  batchSampleNumbers : list Z;
  batchTimestamps : list float64
}.

Definition array_set {A : Type} (arr : nat -> A) (i : nat) (x : A) : nat -> A :=
  fun j => if Nat.eqb j i then x else arr j.

Definition array_prefix {A : Type} (arr : nat -> A) (n : nat) : list A :=
  map arr (seq 0 n).

(** [CustomICThread::CustomICThread]: the in-class initialisers (256 Hz),
    the parser configured with the defaults; the arrays are allocated and
    not yet written (shown as zeros). *)
Definition new_thread : CustomICThread :=
  mkCustomICThread (configure new_parser 8 2 default_scaleFactor)
                   (f32_of_int 256) 0 (f64_of_int (-1))
                   (fun _ => 0) (fun _ => f64_zero).

(** [startAcquisition], the connected path: counters reset, parser reset *)
Definition startAcquisition (th : CustomICThread) : CustomICThread :=
  mkCustomICThread (reset (parser th)) (sampleRate th)
                   0 (f64_of_int (-1))
                   (sampleNumbers th) (timestampBuffer th).

(** The body of [for (int i = 0; i < numPackets; i++)] in [updateBuffer] *)
Definition publish_packet (th : CustomICThread) (i : nat) (packet : DataPacket)
  : CustomICThread :=
  if negb (valid packet) then th
  else
    let sampleIndex := totalSamples th + Z.of_nat i in
    let timestamp :=
      f64_div (f64_of_int sampleIndex) (f64_of_f32 (sampleRate th)) in
    let anchor :=
      if f64_ltb (initialTimestamp th) f64_zero then timestamp
      else initialTimestamp th in
    mkCustomICThread (parser th) (sampleRate th)
                     (totalSamples th) anchor
                     (array_set (sampleNumbers th) i sampleIndex)
                     (array_set (timestampBuffer th) i (f64_sub timestamp anchor)).

Fixpoint publish_loop (th : CustomICThread) (i : nat) (packets : list DataPacket)
  : CustomICThread :=
  match packets with
  | [] => th
  | packet :: rest => publish_loop (publish_packet th i packet) (S i) rest
  end.

Definition with_parser (th : CustomICThread) (p : ProtocolParser) : CustomICThread :=
  mkCustomICThread p (sampleRate th) (totalSamples th) (initialTimestamp th)
                   (sampleNumbers th) (timestampBuffer th).

Definition add_samples (th : CustomICThread) (n : Z) : CustomICThread :=
  mkCustomICThread (parser th) (sampleRate th) (totalSamples th + n)
                   (initialTimestamp th)
                   (sampleNumbers th) (timestampBuffer th).

(** [updateBuffer] in live mode, given the bytes the serial port returned
    ([[]] for [bytesRead <= 0]).  [None]: [parse] faulted, or the block has
    more entries than the arrays hold. *)
Definition updateBuffer (th : CustomICThread) (bytesRead : list uint8)
  : option (CustomICThread * option Batch) :=
  match bytesRead with
  | [] => Some (th, None)
  | _ :: _ =>
      match parse (parser th) bytesRead with
      | None => None
      | Some (p', packets) =>
          let numPackets := length packets in
          let th0 := with_parser th p' in
          if (numPackets =? 0)%nat then Some (th0, None)
          else if bufferSize <? Z.of_nat numPackets then None
          else
            let th1 := publish_loop th0 0 packets in
            Some (add_samples th1 (Z.of_nat numPackets),
                  Some (mkBatch (array_prefix (sampleNumbers th1) numPackets)
                                (array_prefix (timestampBuffer th1) numPackets)))
      end
  end.

(** Successive cycles of the acquisition loop, one read per cycle; the
    published blocks in order. *)
Fixpoint run_cycles (th : CustomICThread) (reads : list (list uint8))
  : option (CustomICThread * list Batch) :=
  match reads with
  | [] => Some (th, [])
  | r :: rest =>
      match updateBuffer th r with
      | None => None
      | Some (th1, ob) =>
          match run_cycles th1 rest with
          | None => None
          | Some (th2, bs) =>
              Some (th2, match ob with Some b => b :: bs | None => bs end)
          end
      end
  end.


Definition published_timestamps (bs : list Batch) : list float64 :=
  concat (map batchTimestamps bs).

(* ================================================================== *)
(** ** Vocabulary of the properties *)
(* ================================================================== *)

(** The configurations the plugin's parameters allow: 1..256 channels and
    2, 3 or 4 bytes per sample. *)
Definition valid_config (p : ProtocolParser) : Prop :=
  1 <= numChannels p <= 256 /\ 2 <= bytesPerSample p <= 4.

Definition bytes_ok (l : list uint8) : Prop := Forall is_byte l.

(** [width]-byte big-endian two's-complement form of [value] *)
Definition encode_be (width : nat) (value : Z) : list uint8 :=
  map (fun k => Z.land (Z.shiftr value (8 * Z.of_nat (width - 1 - k))) 255)
      (seq 0 width).

(** The signed range of a [width]-byte integer *)
Definition in_signed_range (width : Z) (value : Z) : Prop :=
  - 2 ^ (8 * width - 1) <= value < 2 ^ (8 * width - 1).

(** A stream cut at every byte boundary *)
Definition bytewise (stream : list uint8) : list (list uint8) :=
  map (fun b => [b]) stream.

(** A well-framed packet for [p]: [packetSize] bytes that start with the
    two sync bytes and carry the XOR of the others in the last place. *)
Definition well_framed (p : ProtocolParser) (pkt : list uint8) : Prop :=
  Z.of_nat (length pkt) = getPacketSize p /\
  byte_at pkt 0 = syncByte1 p /\
  byte_at pkt 1 = syncByte2 p /\
  validateChecksum pkt (getPacketSize p) = Some true.

(** [i] is a sync position of [buf]: the two sync bytes stand at [i], [i+1] *)
Definition sync_at (p : ProtocolParser) (buf : list uint8) (i : nat) : Prop :=
  (S i < length buf)%nat /\
  byte_at buf i = syncByte1 p /\ byte_at buf (S i) = syncByte2 p.

(** Bytes removed from the buffer by a [parse] call that received [data] *)
Definition consumed (p : ProtocolParser) (data : list uint8) (p' : ProtocolParser) : Z :=
  Z.of_nat (length (buffer p)) + Z.of_nat (length data)
  - Z.of_nat (length (buffer p')).

Definition positive_finite (x : spec_float) : Prop :=
  exists m e, x = S754_finite false m e.

(** The anchor of the timestamps: already set to the first timestamp, 0,
    or still at its start value -1 with no sample counted. *)
Definition anchored_or_fresh (th : CustomICThread) : Prop :=
  initialTimestamp th = f64_zero \/
  (initialTimestamp th = f64_of_int (-1) /\ totalSamples th = 0).

(** The packets [acc] pushed before the rest of a run *)
Definition prepend_packets (acc : list DataPacket) (o : outcome) : outcome :=
  match o with
  | Done packets buf => Done (acc ++ packets) buf
  | other => other
  end.


(* ================================================================== *)
(** ** Vocabulary of the further properties *)
(* ================================================================== *)

(** [pkt] with the byte at index [i] replaced by [x] *)
Definition corrupt_at (i : nat) (x : uint8) (pkt : list uint8) : list uint8 :=
  firstn i pkt ++ x :: skipn (S i) pkt.

(** Window offsets in increasing order, each at least [gap] behind the
    one before it, the first at [lo] or later *)
Fixpoint spaced (gap lo : nat) (ks : list nat) : Prop :=
  match ks with
  | [] => True
  | k :: rest => (lo <= k)%nat /\ spaced gap (k + gap) rest
  end.

(** No index of [l] holds the two sync bytes in a row *)
Definition no_sync_pair (p : ProtocolParser) (l : list uint8) : Prop :=
  forall i, ~ sync_at p l i.

(** The packet a device sends for the channel values [values], after the
    wire format of the plugin's documentation: the two sync bytes, each
    value in [bytesPerSample] big-endian bytes, then the XOR of all the
    bytes before it. *)
Definition frame_packet (p : ProtocolParser) (values : list Z) : list uint8 :=
  let body :=
    syncByte1 p :: syncByte2 p
    :: concat (map (encode_be (Z.to_nat (bytesPerSample p))) values) in
  if useChecksum p then body ++ [xor_bytes body] else body.

(** A window of [buf] that [parse] may decode: it starts at offset [k]
    with the two sync bytes, lies inside [buf] and passes the checksum. *)
Definition checked_window (p : ProtocolParser) (buf : list uint8) (k : nat) : Prop :=
  sync_at p buf k /\
  (k + Z.to_nat (getPacketSize p) <= length buf)%nat /\
  validateChecksum (skipn k buf) (getPacketSize p) = Some true.

(** What every returned packet looks like *)
Definition packet_shape (p : ProtocolParser) (pkt : DataPacket) : Prop :=
  length (samples pkt) = Z.to_nat (numChannels p) /\
  valid pkt = true /\ timestamp pkt = 0.

(* ================================================================== *)
(** ** CustomICThread: configuration, connection, acquisition control *)
(* ================================================================== *)

From Stdlib Require Strings.String.
Import String.StringSyntax.
Delimit Scope string_scope with string.

(** [double] addition, and [(int) x] for a [double] [x]: truncation toward
    zero (the conversion is undefined outside [int], which no sample rate
    the plugin accepts reaches) *)
Definition f64_add : float64 -> float64 -> float64 := SFadd 53 1024.

Definition f64_to_int (x : float64) : Z :=
  match x with
  | S754_finite s m e =>
      cond_Zopp s (match e with
                   | Zneg k => Zpos m / 2 ^ Zpos k
                   | _ => Zpos m * 2 ^ e
                   end)
  | _ => 0
  end.

Definition f32_ltb : float32 -> float32 -> bool := SFltb.
Definition f32_leb : float32 -> float32 -> bool := SFleb.
Definition f32_eqb : float32 -> float32 -> bool := SFeqb.

(** The remaining fields of [CustomICThread], around the ones of the
    publishing path ([core]); [portOpen] is [serial->isOpen()]. *)
Record ControlState := mkControlState {
  core : CustomICThread;
  threadChannels : Z;
  threadBytes : Z;
  threadScale : float32;
  portName : String.string;
  baudRate : Z;
  simulationMode : bool;
  simPhase : float64;
  connected : bool;
  portOpen : bool
}.

Definition with_core (st : ControlState) (c : CustomICThread) : ControlState :=
  mkControlState c (threadChannels st) (threadBytes st) (threadScale st)
                 (portName st) (baudRate st) (simulationMode st) (simPhase st)
                 (connected st) (portOpen st).

Definition with_format (st : ControlState) (channels bytes : Z) (scale : float32)
  : ControlState :=
  mkControlState (core st) channels bytes scale
                 (portName st) (baudRate st) (simulationMode st) (simPhase st)
                 (connected st) (portOpen st).

Definition with_port (st : ControlState) (name : String.string) (baud : Z)
  : ControlState :=
  mkControlState (core st) (threadChannels st) (threadBytes st) (threadScale st)
                 name baud (simulationMode st) (simPhase st)
                 (connected st) (portOpen st).

Definition with_link (st : ControlState) (simulate : bool) (phase : float64)
           (conn opened : bool) : ControlState :=
  mkControlState (core st) (threadChannels st) (threadBytes st) (threadScale st)
                 (portName st) (baudRate st) simulate phase conn opened.

Definition with_sampleRate (th : CustomICThread) (rate : float32) : CustomICThread :=
  mkCustomICThread (parser th) rate (totalSamples th) (initialTimestamp th)
                   (sampleNumbers th) (timestampBuffer th).

(** [CustomICThread::CustomICThread] *)
Definition new_control : ControlState :=
  mkControlState new_thread 8 2 default_scaleFactor
                 String.EmptyString 115200 false f64_zero false false.

(** [parser->configure(numChannels, bytesPerSample, scaleFactor)] *)
Definition configure_parser (st : ControlState) : ControlState :=
  with_core st (with_parser (core st)
                            (configure (parser (core st)) (threadChannels st)
                                       (threadBytes st) (threadScale st))).

Definition setPort (st : ControlState) (port : String.string) : ControlState :=
  with_port st port (baudRate st).

Definition setBaudRate (st : ControlState) (rate : Z) : ControlState :=
  with_port st (portName st) rate.

Definition setNumChannels (st : ControlState) (num : Z) : ControlState :=
  configure_parser (with_format st num (threadBytes st) (threadScale st)).

Definition setSampleRate (st : ControlState) (rate : float32) : ControlState :=
  with_core st (with_sampleRate (core st) rate).

Definition setDataFormat (st : ControlState) (bytes : Z) : ControlState :=
  configure_parser (with_format st (threadChannels st) bytes (threadScale st)).

Definition setScaleFactor (st : ControlState) (scale : float32) : ControlState :=
  configure_parser (with_format st (threadChannels st) (threadBytes st) scale).

(** [CustomICThread::setSyncBytes]; the arguments are [uint8_t] *)
Definition thread_setSyncBytes (st : ControlState) (sync1 sync2 : uint8)
  : ControlState :=
  with_core st (with_parser (core st) (setSyncBytes (parser (core st)) sync1 sync2)).

Definition setSimulationMode (st : ControlState) (simulate : bool) : ControlState :=
  with_link st simulate (simPhase st)
            (if simulate then true else connected st) (portOpen st).

Definition isConnected (st : ControlState) : bool := connected st.

Definition port_is_empty (name : String.string) : bool :=
  match name with
  | String.EmptyString => true
  | String.String _ _ => false
  end.

(** [connect()]; [openSucceeds] is what [serial->open(portName, baudRate)]
    returns when it is called ([open] closes the port first, so a failed
    attempt leaves it closed). *)
Definition connect (st : ControlState) (openSucceeds : bool) : bool * ControlState :=
  if simulationMode st then
    (true, with_link st (simulationMode st) (simPhase st) true (portOpen st))
  else if port_is_empty (portName st) then (false, st)
  else if negb openSucceeds then
    (false, with_link st (simulationMode st) (simPhase st) (connected st) false)
  else
    (true,
     with_core (with_link st (simulationMode st) (simPhase st) true true)
               (with_parser (core st) (reset (parser (core st))))).

Definition disconnect (st : ControlState) : ControlState :=
  with_core (with_link st (simulationMode st) (simPhase st) false false)
            (with_parser (core st) (reset (parser (core st)))).

Definition foundInputSource (st : ControlState) : bool :=
  simulationMode st || connected st.

(** [startAcquisition()] with its connection attempt; on success the
    counters, the anchor, the phase and the parser are reset. *)
Definition startAcquisition_full (st : ControlState) (openSucceeds : bool)
  : bool * ControlState :=
  let '(ok, st1) :=
    if connected st then (true, st) else connect st openSucceeds in
  if negb ok then (false, st1)
  else
    (true,
     with_link (with_core st1 (startAcquisition (core st1)))
               (simulationMode st1) f64_zero (connected st1) (portOpen st1)).

(** [(int)(sampleRate / 100.0)] and [1.0 / sampleRate] of
    [generateSimulatedData] *)
Definition samplesPerUpdate (rate : float32) : Z :=
  f64_to_int (f64_div (f64_of_f32 rate) (f64_of_int 100)).

Definition sim_dt (rate : float32) : float64 :=
  f64_div (f64_of_int 1) (f64_of_f32 rate).

(** One turn of the sample loop of [generateSimulatedData], without the
    waveform written to [dataBuffer] (sines and [rand()]). *)
Definition simulate_sample (st : ControlState) (s : nat) : ControlState :=
  let th := core st in
  let sampleIndex := totalSamples th + Z.of_nat s in
  let timestamp :=
    f64_div (f64_of_int sampleIndex) (f64_of_f32 (sampleRate th)) in
  let anchor :=
    if f64_ltb (initialTimestamp th) f64_zero then timestamp
    else initialTimestamp th in
  with_link
    (with_core st
       (mkCustomICThread (parser th) (sampleRate th) (totalSamples th) anchor
                         (array_set (sampleNumbers th) s sampleIndex)
                         (array_set (timestampBuffer th) s
                                    (f64_sub timestamp anchor))))
    (simulationMode st) (f64_add (simPhase st) (sim_dt (sampleRate th)))
    (connected st) (portOpen st).

Fixpoint simulate_loop (st : ControlState) (s n : nat) : ControlState :=
  match n with
  | O => st
  | S n' => simulate_loop (simulate_sample st s) (S s) n'
  end.

(** [generateSimulatedData()]: the block handed to [addToBuffer] and the
    state after it.  [None]: more samples than the arrays hold. *)
Definition generateSimulatedData (st : ControlState) : option (ControlState * Batch) :=
  let n := samplesPerUpdate (sampleRate (core st)) in
  if bufferSize <? n then None
  else
    let st1 := simulate_loop st 0 (Z.to_nat n) in
    let th1 := core st1 in
    Some (with_core st1 (add_samples th1 n),
          mkBatch (array_prefix (sampleNumbers th1) (Z.to_nat n))
                  (array_prefix (timestampBuffer th1) (Z.to_nat n))).

(** [updateBuffer()] in full: the value returned, the state, the block
    published if any.  [bytesRead] is what [serial->read] delivers when it
    is called. *)
Definition updateBuffer_full (st : ControlState) (bytesRead : list uint8)
  : option (bool * ControlState * option Batch) :=
  if simulationMode st then
    match generateSimulatedData st with
    | Some (st', b) => Some (true, st', Some b)
    | None => None
    end
  else if negb (portOpen st) then Some (false, st, None)
  else
    match updateBuffer (core st) bytesRead with
    | Some (th', ob) => Some (true, with_core st th', ob)
    | None => None
    end.

(** The values [parameterValueChanged] reads from the changed parameter *)
Inductive parameter : Type :=
| ParSimulate (value : bool)
| ParChannels (value : Z)
| ParSampleRate (value : Z)
| ParPort (value : String.string)
| ParBaudRate (value : Z)
| ParDataFormat (formatIdx : Z)
| ParScaleFactor (value : float32)
| ParSyncByte (hex1 hex2 : Z)   (* sync_byte_1 or sync_byte_2: both texts *)
| ParOther.

(** [(uint8_t) v] for an [int] [v] *)
Definition to_uint8 (v : Z) : uint8 := v mod 256.

Definition parameterValueChanged (st : ControlState) (param : parameter)
  : ControlState :=
  match param with
  | ParSimulate v => setSimulationMode st v
  | ParChannels v =>
      configure_parser (with_format st v (threadBytes st) (threadScale st))
  | ParSampleRate v => with_core st (with_sampleRate (core st) (f32_of_int v))
  | ParPort s => with_port st s (baudRate st)
  | ParBaudRate v => with_port st (portName st) v
  | ParDataFormat formatIdx =>
      configure_parser
        (with_format st (threadChannels st) (formatIdx + 2) (threadScale st))
  | ParScaleFactor v =>
      configure_parser (with_format st (threadChannels st) (threadBytes st) v)
  | ParSyncByte hex1 hex2 =>
      thread_setSyncBytes st (to_uint8 hex1) (to_uint8 hex2)
  | ParOther => st
  end.

(** What reaches the thread from the editor (CustomICEditor.cpp) and from
    the parameter system: the text of a label already converted
    ([getIntValue], [getFloatValue], [getHexValue32]), the selected id or
    text of a combo box, a button with what the click needs to know. *)
Inductive ui_event : Type :=
| LabelChannels (channels : Z)
| LabelSampleRate (rate : float32)
| LabelScale (scale : float32)
| LabelSync (hex1 hex2 : Z)
| ComboPort (selectedPort : String.string)
| ComboBaud (baud : Z)
| ComboFormat (selectedId : Z)
| ButtonSimulate (toggleState : bool)
| ButtonConnect (openSucceeds : bool)
| ParameterChanged (param : parameter).

(** [labelTextChanged], [comboBoxChanged], [buttonClicked] and
    [parameterValueChanged] as one step *)
Definition handle_event (st : ControlState) (e : ui_event) : ControlState :=
  match e with
  | LabelChannels channels =>
      if (0 <? channels) && (channels <=? 256) then setNumChannels st channels
      else st
  | LabelSampleRate rate =>
      if f32_ltb f32_zero rate && f32_leb rate (f32_of_int 100000)
      then setSampleRate st rate else st
  | LabelScale scale =>
      if negb (f32_eqb scale f32_zero) then setScaleFactor st scale else st
  | LabelSync hex1 hex2 => thread_setSyncBytes st (to_uint8 hex1) (to_uint8 hex2)
  | ComboPort selectedPort => setPort st selectedPort
  | ComboBaud baud => setBaudRate st baud
  | ComboFormat selectedId => setDataFormat st selectedId
  | ButtonSimulate toggleState => setSimulationMode st toggleState
  | ButtonConnect openSucceeds =>
      if isConnected st then disconnect st else snd (connect st openSucceeds)
  | ParameterChanged param => parameterValueChanged st param
  end.

(** What the host and the widgets guarantee about the values they deliver:
    the registered parameter ranges (1..256 channels, 1..100000 Hz, three
    data formats), the ids of the three format items, and a sample-rate
    text that converts to a [float]. *)
Definition event_in_range (e : ui_event) : Prop :=
  match e with
  | ComboFormat selectedId => 2 <= selectedId <= 4
  | LabelSampleRate rate => valid_binary 24 128 rate = true
  | ParameterChanged (ParChannels v) => 1 <= v <= 256
  | ParameterChanged (ParSampleRate v) => 1 <= v <= 100000
  | ParameterChanged (ParDataFormat formatIdx) => 0 <= formatIdx <= 2
  | _ => True
  end.

(** The configuration [parse] and the live publishing path rely on: a
    valid packet layout, the parser holding the same layout as the thread,
    the checksum on, and a sample rate that is a positive finite number. *)
Definition control_ok (st : ControlState) : Prop :=
  valid_config (parser (core st)) /\
  numChannels (parser (core st)) = threadChannels st /\
  bytesPerSample (parser (core st)) = threadBytes st /\
  scaleFactor (parser (core st)) = threadScale st /\
  useChecksum (parser (core st)) = true /\
  positive_finite (f64_of_f32 (sampleRate (core st))).

(** [speed_t] constants of the POSIX [open], and its [switch] on the rate *)
Inductive speed_t : Type :=
| B9600 | B19200 | B38400 | B57600 | B115200 | B230400.

Definition posix_speed (baudRate : Z) : speed_t :=
  match baudRate with
  | 9600 => B9600
  | 19200 => B19200
  | 38400 => B38400
  | 57600 => B57600
  | 115200 => B115200
  | 230400 => B230400
  | _ => B115200
  end.

(** The rates of the [baud_rate] parameter and of the editor's selector *)
Definition offered_baud_rates : list Z :=
  [9600; 19200; 38400; 57600; 115200; 230400; 460800; 921600].

(** [f r] for every [r] of [r0, r0 + n) *)
Fixpoint all_from (n : nat) (r0 : Z) (f : Z -> bool) : bool :=
  match n with
  | O => true
  | S k => f r0 && all_from k (r0 + 1) f
  end.


(** The rates the [switch] of the POSIX [open] knows *)
Definition posix_baud_rates : list Z :=
  [9600; 19200; 38400; 57600; 115200; 230400].

(** The events that switch simulation mode on *)
Definition enables_simulation (e : ui_event) : bool :=
  match e with
  | ButtonSimulate true => true
  | ParameterChanged (ParSimulate true) => true
  | _ => false
  end.

(** Settles, index by index, what happens at the sync positions of a
    concrete buffer: no sync pair there, or a window that fails. *)
Ltac settle_sync_positions i Hi Hsync :=
  repeat (destruct i as [|i];
          [ first [ exfalso; cbn in Hi; lia
                  | destruct Hsync as (_ & Hs1 & Hs2);
                    vm_compute in Hs1, Hs2; discriminate
                  | vm_compute; reflexivity ]
          | try (exfalso; cbn in Hi; lia) ]).

(* ================================================================== *)
(** ** Packet size *)
(* ================================================================== *)

Section PacketSize.

Variable p : ProtocolParser.
Hypothesis Hvalid : valid_config p.

Lemma valid_config_product : 2 <= numChannels p * bytesPerSample p <= 1024.
Proof. destruct Hvalid as [Hc Hb]. nia. Qed.

Lemma valid_config_packetSize : 4 <= getPacketSize p <= 1027.
Proof.
  pose proof valid_config_product as Hm. unfold getPacketSize.
  destruct (useChecksum p); lia.
Qed.

Lemma valid_config_size_t : size_t_of_int (getPacketSize p) = getPacketSize p.
Proof.
  unfold size_t_of_int. pose proof valid_config_packetSize as Hs.
  apply Z.mod_small. split; [lia|].
  apply Z.le_lt_trans with 1027; [lia | reflexivity].
Qed.

End PacketSize.

(** C6. For every valid configuration (1..256 channels, 2..4 bytes per
    sample, either value of the checksum flag) [getPacketSize] is
    [2 + channels * bytesPerSample + (1 if checksum enabled else 0)], a
    value that fits the [int] the source computes it in. *)
Theorem getPacketSize_formula (p : ProtocolParser) :
  valid_config p ->
  getPacketSize p
  = 2 + numChannels p * bytesPerSample p + (if useChecksum p then 1 else 0)
  /\ 4 <= getPacketSize p < 2 ^ 31.
Proof.
  intro Hv. split; [reflexivity|].
  pose proof (valid_config_packetSize p Hv) as Hs. split; [lia|].
  apply Z.le_lt_trans with 1027; [lia | reflexivity].
Qed.

Lemma getPacketSize_formula_witness :
  valid_config (configure new_parser 2 2 (f32_of_int 1)) /\
  getPacketSize (configure new_parser 2 2 (f32_of_int 1)) = 7.
Proof.
  assert (Hv : valid_config (configure new_parser 2 2 (f32_of_int 1))).
  { unfold valid_config; simpl; lia. }
  split; [exact Hv|].
  rewrite (proj1 (getPacketSize_formula _ Hv)). reflexivity.
Defined.

(* ================================================================== *)
(** ** The bounded append *)
(* ================================================================== *)

Lemma MAX_BUFFER_SIZE_pos : 0 < MAX_BUFFER_SIZE.
Proof. reflexivity. Qed.

Section Append.

Local Opaque MAX_BUFFER_SIZE.

Lemma push_capped_suffix (buf : list uint8) (b : uint8) :
  Z.of_nat (length buf) <= MAX_BUFFER_SIZE ->
  push_capped buf b = skipn (length (buf ++ [b]) - Z.to_nat MAX_BUFFER_SIZE) (buf ++ [b]).
Proof.
  intro Hle. unfold push_capped.
  pose proof MAX_BUFFER_SIZE_pos as Hpos.
  rewrite length_app. cbn [length].
  destruct (Z.ltb_spec MAX_BUFFER_SIZE (Z.of_nat (length buf + 1))) as [Hgt|Hng].
  - replace (length buf + 1 - Z.to_nat MAX_BUFFER_SIZE)%nat with 1%nat by lia.
    reflexivity.
  - replace (length buf + 1 - Z.to_nat MAX_BUFFER_SIZE)%nat with 0%nat by lia.
    reflexivity.
Qed.

Lemma push_capped_length (buf : list uint8) (b : uint8) :
  Z.of_nat (length buf) <= MAX_BUFFER_SIZE ->
  Z.of_nat (length (push_capped buf b)) <= MAX_BUFFER_SIZE.
Proof.
  intro Hle. rewrite push_capped_suffix by exact Hle.
  rewrite length_skipn, length_app. cbn [length]. lia.
Qed.

Lemma append_data_suffix (data buf : list uint8) :
  Z.of_nat (length buf) <= MAX_BUFFER_SIZE ->
  append_data buf data = skipn (length (buf ++ data) - Z.to_nat MAX_BUFFER_SIZE) (buf ++ data).
Proof.
  revert buf. induction data as [|b data IH]; intros buf Hle.
  - cbn [append_data fold_left]. rewrite app_nil_r.
    replace (length buf - Z.to_nat MAX_BUFFER_SIZE)%nat with 0%nat by lia.
    reflexivity.
  - cbn [append_data fold_left]. fold (append_data (push_capped buf b) data).
    rewrite IH by (apply push_capped_length; exact Hle).
    rewrite push_capped_suffix by exact Hle.
    set (k := (length (buf ++ [b]) - Z.to_nat MAX_BUFFER_SIZE)%nat).
    assert (Hk : (k <= length (buf ++ [b]))%nat) by (unfold k; lia).
    replace (buf ++ b :: data) with ((buf ++ [b]) ++ data)
      by (rewrite <- app_assoc; reflexivity).
    rewrite length_app, length_skipn.
    rewrite (length_app (buf ++ [b]) data).
    assert (Hsplit : skipn k ((buf ++ [b]) ++ data) = skipn k (buf ++ [b]) ++ data).
    { rewrite skipn_app.
      replace (k - length (buf ++ [b]))%nat with 0%nat by lia. reflexivity. }
    rewrite <- Hsplit, skipn_skipn. f_equal.
    unfold k. rewrite !length_app. cbn [length]. lia.
Qed.

Lemma append_data_length (data buf : list uint8) :
  Z.of_nat (length buf) <= MAX_BUFFER_SIZE ->
  Z.of_nat (length (append_data buf data)) <= MAX_BUFFER_SIZE.
Proof.
  intro Hle. rewrite append_data_suffix by exact Hle.
  rewrite length_skipn.
  pose proof MAX_BUFFER_SIZE_pos. lia.
Qed.

Lemma append_data_small (data buf : list uint8) :
  Z.of_nat (length buf + length data) <= MAX_BUFFER_SIZE ->
  append_data buf data = buf ++ data.
Proof.
  intro Hle. rewrite append_data_suffix by lia.
  rewrite length_app.
  replace (length buf + length data - Z.to_nat MAX_BUFFER_SIZE)%nat with 0%nat by lia.
  reflexivity.
Qed.

End Append.

(* ================================================================== *)
(** ** The sync search *)
(* ================================================================== *)

Section Scan.

Variables s1 s2 : uint8.

(** The test of the search at index [i] of [l] *)
Let hit (l : list uint8) (i : nat) : Prop :=
  byte_at l i = s1 /\ byte_at l (S i) = s2.

Lemma find_sync_cons (n : nat) (a : uint8) (l : list uint8) :
  (1 <= length l)%nat ->
  find_sync s1 s2 (S n) (a :: l)
  = if (a =? s1) && (byte_at l 0 =? s2) then Found 0
    else shift_found (find_sync s1 s2 n l).
Proof.
  intro Hlen. destruct l as [|b l]; [cbn in Hlen; lia|].
  cbn [find_sync byte_at nth]. destruct (a =? s1); reflexivity.
Qed.

Lemma find_sync_safe (n : nat) (l : list uint8) :
  (n < length l)%nat -> find_sync s1 s2 n l <> OutOfRange.
Proof.
  revert l. induction n as [|n IH]; intros l Hlen; [discriminate|].
  destruct l as [|a l]; [cbn in Hlen; lia|]. cbn [length] in Hlen.
  rewrite find_sync_cons by lia.
  destruct ((a =? s1) && (byte_at l 0 =? s2)); [discriminate|].
  specialize (IH l ltac:(lia)).
  destruct (find_sync s1 s2 n l); cbn; congruence.
Qed.

Lemma find_sync_Found_inv (n : nat) (l : list uint8) (i : nat) :
  find_sync s1 s2 n l = Found i ->
  (i < n)%nat /\ (S i < length l)%nat /\ hit l i /\
  forall j, (j < i)%nat -> ~ hit l j.
Proof.
  revert l i. induction n as [|n IH]; intros l i Hf; [discriminate|].
  destruct l as [|a l]; [discriminate|].
  destruct l as [|b l].
  { cbn [find_sync] in Hf. destruct (a =? s1); [discriminate|].
    destruct n; discriminate. }
  rewrite find_sync_cons in Hf by (cbn; lia).
  cbn [byte_at nth] in Hf.
  destruct (Z.eqb_spec a s1) as [Ha|Ha]; cbn [andb] in Hf.
  - destruct (Z.eqb_spec b s2) as [Hb|Hb].
    + injection Hf as <-. repeat split; cbn; try lia; auto.
    + destruct (find_sync s1 s2 n (b :: l)) as [k| |] eqn:Hk; try discriminate.
      injection Hf as <-. destruct (IH _ _ Hk) as (H1 & H2 & H3 & H4).
      repeat split; try (cbn [length] in *; lia); try apply H3.
      intros j Hj [Hj1 Hj2]. destruct j as [|j].
      * cbn in Hj2. contradiction.
      * apply (H4 j ltac:(lia)). split; assumption.
  - destruct (find_sync s1 s2 n (b :: l)) as [k| |] eqn:Hk; try discriminate.
    injection Hf as <-. destruct (IH _ _ Hk) as (H1 & H2 & H3 & H4).
    repeat split; try (cbn [length] in *; lia); try apply H3.
    intros j Hj [Hj1 Hj2]. destruct j as [|j].
    + cbn in Hj1. contradiction.
    + apply (H4 j ltac:(lia)). split; assumption.
Qed.

Lemma find_sync_NotFound_inv (n : nat) (l : list uint8) :
  find_sync s1 s2 n l = NotFound ->
  forall j, (j < n)%nat -> ~ hit l j.
Proof.
  revert l. induction n as [|n IH]; intros l Hf j Hj; [lia|].
  destruct l as [|a l]; [discriminate|].
  destruct l as [|b l].
  { cbn [find_sync] in Hf. destruct (Z.eqb_spec a s1) as [Ha|Ha]; [discriminate|].
    destruct n; [|discriminate].
    assert (j = 0)%nat as -> by lia. intros [Hj1 _]. cbn in Hj1. contradiction. }
  rewrite find_sync_cons in Hf by (cbn; lia).
  cbn [byte_at nth] in Hf.
  destruct (find_sync s1 s2 n (b :: l)) as [k| |] eqn:Hk;
    try (destruct ((a =? s1) && (b =? s2)); discriminate).
  destruct (Z.eqb_spec a s1) as [Ha|Ha]; cbn [andb] in Hf.
  - destruct (Z.eqb_spec b s2) as [Hb|Hb]; [discriminate|].
    intros [Hj1 Hj2]. destruct j as [|j].
    + cbn in Hj2. contradiction.
    + apply (IH _ Hk j ltac:(lia)). split; assumption.
  - intros [Hj1 Hj2]. destruct j as [|j].
    + cbn in Hj1. contradiction.
    + apply (IH _ Hk j ltac:(lia)). split; assumption.
Qed.

(** The search returns the first index that passes the test, when there is
    one among the [n] it tries. *)
Lemma find_sync_first (n : nat) (l : list uint8) (i : nat) :
  (n < length l)%nat -> (i < n)%nat -> hit l i ->
  (forall j, (j < i)%nat -> ~ hit l j) ->
  find_sync s1 s2 n l = Found i.
Proof.
  intros Hlen Hi Hhit Hfirst.
  destruct (find_sync s1 s2 n l) as [k| |] eqn:Hk.
  - destruct (find_sync_Found_inv _ _ _ Hk) as (H1 & H2 & H3 & H4).
    destruct (Nat.lt_trichotomy k i) as [Hlt|[->|Hgt]]; [|reflexivity|].
    + exfalso. exact (Hfirst k Hlt H3).
    + exfalso. exact (H4 i Hgt Hhit).
  - exfalso. exact (find_sync_NotFound_inv _ _ Hk i Hi Hhit).
  - exfalso. exact (find_sync_safe _ _ Hlen Hk).
Qed.

Lemma find_sync_none (n : nat) (l : list uint8) :
  (n < length l)%nat ->
  (forall j, (j < n)%nat -> ~ hit l j) ->
  find_sync s1 s2 n l = NotFound.
Proof.
  intros Hlen Hno.
  destruct (find_sync s1 s2 n l) as [k| |] eqn:Hk; [| reflexivity |].
  - destruct (find_sync_Found_inv _ _ _ Hk) as (H1 & H2 & H3 & H4).
    exfalso. exact (Hno k H1 H3).
  - exfalso. exact (find_sync_safe _ _ Hlen Hk).
Qed.

End Scan.

(* ================================================================== *)
(** ** One turn of the parse loop *)
(* ================================================================== *)

Lemma validateChecksum_pos (packet : list uint8) (size : Z) :
  0 < size ->
  validateChecksum packet size
  = Some (xor_bytes (firstn (Z.to_nat (size - 1)) packet)
          =? byte_at packet (Z.to_nat (size - 1))).
Proof.
  intro Hpos. unfold validateChecksum.
  destruct (Z.leb_spec size 0); [lia | reflexivity].
Qed.

(** The checksum reads only the first [size] bytes. *)
Lemma validateChecksum_app (packet rest : list uint8) (size : Z) :
  Z.of_nat (length packet) = size ->
  validateChecksum (packet ++ rest) size = validateChecksum packet size.
Proof.
  intro Hlen. unfold validateChecksum, byte_at.
  destruct (Z.leb_spec size 0) as [Hz|Hz]; [reflexivity|].
  - rewrite firstn_app.
    replace (Z.to_nat (size - 1) - length packet)%nat with 0%nat by lia.
    cbn [firstn]. rewrite app_nil_r.
    rewrite app_nth1 by lia. reflexivity.
Qed.

Section Loop.

Variable p : ProtocolParser.
Hypothesis Hvalid : valid_config p.

Let P : Z := getPacketSize p.

Lemma loop_body_short (buf : list uint8) :
  Z.of_nat (length buf) < P -> loop_body p buf = Exit buf.
Proof.
  intro Hlt. unfold loop_body. rewrite valid_config_size_t by exact Hvalid.
  fold P. destruct (Z.ltb_spec (Z.of_nat (length buf)) P); [reflexivity | lia].
Qed.

Lemma loop_body_not_found (buf : list uint8) :
  P <= Z.of_nat (length buf) ->
  find_sync (syncByte1 p) (syncByte2 p) (S (length buf - Z.to_nat P)) buf = NotFound ->
  loop_body p buf = Exit (skipn (length buf - 2) buf).
Proof.
  intros Hge Hscan. unfold loop_body.
  rewrite valid_config_size_t by exact Hvalid. fold P.
  destruct (Z.ltb_spec (Z.of_nat (length buf)) P); [lia|].
  rewrite Hscan.
  pose proof (valid_config_packetSize p Hvalid) as Hs. fold P in Hs.
  destruct (Nat.ltb_spec 2 (length buf)); [reflexivity | lia].
Qed.

Lemma loop_body_found (buf : list uint8) (syncPos : nat) :
  P <= Z.of_nat (length buf) ->
  find_sync (syncByte1 p) (syncByte2 p) (S (length buf - Z.to_nat P)) buf
  = Found syncPos ->
  loop_body p buf
  = match (if useChecksum p then validateChecksum (skipn syncPos buf) P
           else Some true) with
    | Some true =>
        Emit (decode_packet p (skipn syncPos buf))
             (skipn (Z.to_nat P) (skipn syncPos buf))
    | Some false => Retry (tl (skipn syncPos buf))
    | None => Fault
    end.
Proof.
  intros Hge Hscan. unfold loop_body.
  rewrite valid_config_size_t by exact Hvalid. fold P.
  destruct (Z.ltb_spec (Z.of_nat (length buf)) P); [lia|].
  rewrite Hscan.
  destruct (find_sync_Found_inv _ _ _ _ _ Hscan) as (Hi & _).
  rewrite length_skipn.
  destruct (Z.ltb_spec (Z.of_nat (length buf - syncPos)) P); [lia|].
  destruct Hvalid as [Hc _].
  destruct (Z.ltb_spec (numChannels p) 0); [lia|].
  destruct (useChecksum p); [|reflexivity].
  destruct (validateChecksum (skipn syncPos buf) P) as [[|]|]; reflexivity.
Qed.

(** Every turn that stays in the loop makes the buffer shorter. *)
Lemma loop_body_progress (buf : list uint8) :
  match loop_body p buf with
  | Exit buf' => (length buf' <= length buf)%nat
  | Retry buf' => (length buf' < length buf)%nat
  | Emit _ buf' => (length buf' + Z.to_nat P <= length buf)%nat
  | Fault => False
  end.
Proof.
  pose proof (valid_config_packetSize p Hvalid) as Hs. fold P in Hs.
  destruct (Z.lt_ge_cases (Z.of_nat (length buf)) P) as [Hlt|Hge].
  { rewrite loop_body_short by exact Hlt. lia. }
  destruct (find_sync (syncByte1 p) (syncByte2 p) (S (length buf - Z.to_nat P)) buf)
    as [i| |] eqn:Hscan.
  - rewrite (loop_body_found _ _ Hge Hscan).
    destruct (find_sync_Found_inv _ _ _ _ _ Hscan) as (Hi & _).
    assert (Hok : exists b, (if useChecksum p
                             then validateChecksum (skipn i buf) P
                             else Some true) = Some b).
    { destruct (useChecksum p); [|eauto].
      rewrite validateChecksum_pos by lia. eauto. }
    destruct Hok as [b ->]. destruct b.
    + rewrite !length_skipn. lia.
    + destruct (skipn i buf) as [|x r] eqn:Hr.
      * apply (f_equal (@length _)) in Hr. rewrite length_skipn in Hr.
        cbn in Hr. lia.
      * apply (f_equal (@length _)) in Hr. rewrite length_skipn in Hr.
        cbn [tl length] in *. lia.
  - rewrite (loop_body_not_found _ Hge Hscan). rewrite length_skipn. lia.
  - exfalso. revert Hscan. apply find_sync_safe. lia.
Qed.

(** Only packets marked valid are pushed. *)
Lemma loop_body_emit_valid (buf : list uint8) (pkt : DataPacket) (buf' : list uint8) :
  loop_body p buf = Emit pkt buf' -> valid pkt = true.
Proof.
  unfold loop_body. intro H.
  repeat match type of H with
         | (if ?c then _ else _) = _ => destruct c
         | match ?c with _ => _ end = _ => destruct c
         end; try discriminate.
  all: injection H as <- _; reflexivity.
Qed.

End Loop.

(* ================================================================== *)
(** ** The parse loop *)
(* ================================================================== *)

Lemma parse_loop_acc (fuel : nat) (p : ProtocolParser) (buf : list uint8)
      (acc : list DataPacket) :
  parse_loop fuel p buf acc = prepend_packets acc (parse_loop fuel p buf []).
Proof.
  revert buf acc. induction fuel as [|fuel IH]; intros buf acc; [reflexivity|].
  cbn [parse_loop]. destruct (loop_body p buf) as [b|b|pkt b|].
  - cbn. rewrite app_nil_r. reflexivity.
  - apply IH.
  - rewrite (IH b (acc ++ [pkt])), (IH b ([] ++ [pkt])).
    destruct (parse_loop fuel p b []); cbn; try reflexivity.
    rewrite <- app_assoc. reflexivity.
  - reflexivity.
Qed.

Lemma parse_loop_S (fuel : nat) (p : ProtocolParser) (buf : list uint8)
      (acc : list DataPacket) :
  parse_loop (S fuel) p buf acc
  = match loop_body p buf with
    | Exit buf' => Done acc buf'
    | Retry buf' => parse_loop fuel p buf' acc
    | Emit pkt buf' => parse_loop fuel p buf' (acc ++ [pkt])
    | Fault => Faulted
    end.
Proof. reflexivity. Qed.

(** A loop that finished keeps its result under any larger bound. *)
Lemma parse_loop_more_fuel (fuel fuel' : nat) (p : ProtocolParser)
      (buf : list uint8) (acc packets : list DataPacket) (buf' : list uint8) :
  (fuel <= fuel')%nat ->
  parse_loop fuel p buf acc = Done packets buf' ->
  parse_loop fuel' p buf acc = Done packets buf'.
Proof.
  revert fuel' buf acc. induction fuel as [|fuel IH]; intros fuel' buf acc Hle H;
    [discriminate|].
  destruct fuel' as [|fuel']; [lia|].
  cbn [parse_loop] in *. destruct (loop_body p buf) as [b|b|pkt b|];
    try exact H; apply IH; try lia; exact H.
Qed.

Section LoopTermination.

Variable p : ProtocolParser.
Hypothesis Hvalid : valid_config p.

(** The loop leaves after at most [length buf + 1] turns, without fault. *)
Lemma parse_loop_terminates (fuel : nat) (buf : list uint8) (acc : list DataPacket) :
  (length buf < fuel)%nat ->
  exists packets buf',
    parse_loop fuel p buf acc = Done packets buf' /\
    (length buf' <= length buf)%nat.
Proof.
  revert buf acc. induction fuel as [|fuel IH]; intros buf acc Hlt; [lia|].
  cbn [parse_loop]. pose proof (loop_body_progress p Hvalid buf) as Hprog.
  pose proof (valid_config_packetSize p Hvalid) as Hs.
  destruct (loop_body p buf) as [b|b|pkt b|].
  - exists acc, b. split; [reflexivity | lia].
  - destruct (IH b acc ltac:(lia)) as (pk & b' & Hrun & Hlen).
    exists pk, b'. split; [exact Hrun | lia].
  - destruct (IH b (acc ++ [pkt]) ltac:(lia)) as (pk & b' & Hrun & Hlen).
    exists pk, b'. split; [exact Hrun | lia].
  - contradiction.
Qed.

Lemma parse_loop_valid_flags (fuel : nat) (buf : list uint8)
      (acc packets : list DataPacket) (buf' : list uint8) :
  parse_loop fuel p buf acc = Done packets buf' ->
  Forall (fun pkt => valid pkt = true) acc ->
  Forall (fun pkt => valid pkt = true) packets.
Proof.
  revert buf acc. induction fuel as [|fuel IH]; intros buf acc H Hacc;
    [discriminate|].
  cbn [parse_loop] in H. destruct (loop_body p buf) as [b|b|pkt b|] eqn:Hb.
  - injection H as <- _. exact Hacc.
  - exact (IH _ _ H Hacc).
  - apply (IH _ _ H). apply Forall_app. split; [exact Hacc|].
    constructor; [|constructor]. exact (loop_body_emit_valid p _ _ _ Hb).
  - discriminate.
Qed.

End LoopTermination.

(* ================================================================== *)
(** ** What every call preserves, for any configuration *)
(* ================================================================== *)

Lemma length_tl_le {A : Type} (l : list A) : (length (tl l) <= length l)%nat.
Proof. destruct l; cbn; lia. Qed.

Lemma loop_body_nonincreasing (p : ProtocolParser) (buf : list uint8) :
  match loop_body p buf with
  | Exit buf' | Retry buf' | Emit _ buf' => (length buf' <= length buf)%nat
  | Fault => True
  end.
Proof.
  unfold loop_body.
  destruct (Z.of_nat (length buf) <? _); [lia|].
  destruct (find_sync _ _ _ buf) as [i| |]; [| | exact I].
  - pose proof (length_tl_le (skipn i buf)) as Htl.
    destruct (Z.of_nat (length (skipn i buf)) <? _);
      [rewrite length_skipn; lia|].
    destruct (useChecksum p);
      [destruct (validateChecksum (skipn i buf) (getPacketSize p)) as [[|]|]|];
      cbn [negb]; try exact I;
      try (destruct (numChannels p <? 0); [exact I|]);
      rewrite ?length_skipn in *; lia.
  - destruct (2 <? length buf)%nat; rewrite ?length_skipn; lia.
Qed.

Lemma parse_loop_nonincreasing (fuel : nat) (p : ProtocolParser) (buf : list uint8)
      (acc packets : list DataPacket) (buf' : list uint8) :
  parse_loop fuel p buf acc = Done packets buf' ->
  (length buf' <= length buf)%nat.
Proof.
  revert buf acc. induction fuel as [|fuel IH]; intros buf acc H; [discriminate|].
  cbn [parse_loop] in H. pose proof (loop_body_nonincreasing p buf) as Hle.
  destruct (loop_body p buf) as [b|b|pkt b|].
  - injection H as _ <-. exact Hle.
  - specialize (IH _ _ H). lia.
  - specialize (IH _ _ H). lia.
  - discriminate.
Qed.

Lemma parse_inv (p : ProtocolParser) (data : list uint8) (p' : ProtocolParser)
      (packets : list DataPacket) :
  parse p data = Some (p', packets) ->
  exists buf',
    parse_buffer p data = Done packets buf' /\ p' = set_buffer p buf'.
Proof.
  unfold parse. destruct (parse_buffer p data) as [pk b| |]; try discriminate.
  intro H. injection H as <- <-. exists b. split; reflexivity.
Qed.

Lemma parse_buffer_bound (p : ProtocolParser) (data : list uint8) (p' : ProtocolParser)
      (packets : list DataPacket) :
  Z.of_nat (length (buffer p)) <= MAX_BUFFER_SIZE ->
  parse p data = Some (p', packets) ->
  Z.of_nat (length (buffer p')) <= MAX_BUFFER_SIZE.
Proof.
  intros Hle H. destruct (parse_inv _ _ _ _ H) as (b & Hrun & ->).
  unfold parse_buffer in Hrun. apply parse_loop_nonincreasing in Hrun.
  pose proof (append_data_length data (buffer p) Hle). cbn [set_buffer buffer]. lia.
Qed.

Lemma apply_operation_bound (p : ProtocolParser) (o : operation) (p' : ProtocolParser) :
  Z.of_nat (length (buffer p)) <= MAX_BUFFER_SIZE ->
  apply_operation p o = Some p' ->
  Z.of_nat (length (buffer p')) <= MAX_BUFFER_SIZE.
Proof.
  intros Hle H. destruct o as [c b s|s1 s2| |data]; cbn in H.
  - injection H as <-. exact Hle.
  - injection H as <-. exact Hle.
  - injection H as <-. cbn. pose proof MAX_BUFFER_SIZE_pos. lia.
  - destruct (parse p data) as [[q pk]|] eqn:Hp; [|discriminate].
    injection H as <-. exact (parse_buffer_bound _ _ _ _ Hle Hp).
Qed.

Lemma apply_operations_bound (ops : list operation) (p p' : ProtocolParser) :
  Z.of_nat (length (buffer p)) <= MAX_BUFFER_SIZE ->
  apply_operations p ops = Some p' ->
  Z.of_nat (length (buffer p')) <= MAX_BUFFER_SIZE.
Proof.
  revert p. induction ops as [|o ops IH]; intros p Hle H; cbn in H.
  - injection H as <-. exact Hle.
  - destruct (apply_operation p o) as [q|] eqn:Ho; [|discriminate].
    exact (IH q (apply_operation_bound _ _ _ Hle Ho) H).
Qed.

Lemma apply_operation_useChecksum (p : ProtocolParser) (o : operation)
      (p' : ProtocolParser) :
  apply_operation p o = Some p' -> useChecksum p' = useChecksum p.
Proof.
  intro H. destruct o as [c b s|s1 s2| |data]; cbn in H.
  - injection H as <-. reflexivity.
  - injection H as <-. reflexivity.
  - injection H as <-. reflexivity.
  - destruct (parse p data) as [[q pk]|] eqn:Hp; [|discriminate].
    injection H as <-. destruct (parse_inv _ _ _ _ Hp) as (b & _ & ->).
    reflexivity.
Qed.

Lemma apply_operations_useChecksum (ops : list operation) (p p' : ProtocolParser) :
  apply_operations p ops = Some p' -> useChecksum p' = useChecksum p.
Proof.
  revert p. induction ops as [|o ops IH]; intros p H; cbn in H.
  - injection H as <-. reflexivity.
  - destruct (apply_operation p o) as [q|] eqn:Ho; [|discriminate].
    rewrite (IH q H). exact (apply_operation_useChecksum _ _ _ Ho).
Qed.

(** With the flag set, a packet is pushed only from a window that starts
    at the found sync position and passes the checksum. *)
Lemma loop_body_emit_checked (p : ProtocolParser) (buf : list uint8)
      (pkt : DataPacket) (buf' : list uint8) :
  useChecksum p = true ->
  loop_body p buf = Emit pkt buf' ->
  exists syncPos,
    find_sync (syncByte1 p) (syncByte2 p)
              (S (length buf - Z.to_nat (size_t_of_int (getPacketSize p)))) buf
    = Found syncPos /\
    validateChecksum (skipn syncPos buf) (getPacketSize p) = Some true /\
    pkt = decode_packet p (skipn syncPos buf).
Proof.
  intros Hck H. unfold loop_body in H. rewrite Hck in H.
  destruct (Z.of_nat (length buf) <? size_t_of_int (getPacketSize p));
    [discriminate|].
  destruct (find_sync _ _ _ buf) as [i| |] eqn:Hscan; try discriminate.
  destruct (Z.of_nat (length (skipn i buf)) <? _); [discriminate|].
  destruct (validateChecksum (skipn i buf) (getPacketSize p)) as [[|]|] eqn:Hsum;
    try discriminate.
  cbn [negb] in H. destruct (numChannels p <? 0); [discriminate|].
  injection H as <- _. exists i. split; [reflexivity|]. split; [exact Hsum|].
  reflexivity.
Qed.

(* ================================================================== *)
(** ** The buffer cap (C7) and the checksum flag (C10) *)
(* ================================================================== *)

(** C7. After any sequence of public operations on a fresh parser, in
    particular after any sequence of [parse] calls on any input, the frame
    buffer holds at most [MAX_BUFFER_SIZE] = 65536 bytes.  The append of a
    further call keeps the newest bytes: it is the buffer followed by the
    new bytes with the oldest ones, those in excess of the cap, removed
    from the front; the call then only removes bytes, found sync or not,
    and for a valid configuration it does return. *)
Theorem buffer_never_exceeds_cap (ops : list operation) (p : ProtocolParser)
        (data : list uint8) :
  apply_operations new_parser ops = Some p ->
  Z.of_nat (length (buffer p)) <= MAX_BUFFER_SIZE /\
  append_data (buffer p) data
  = skipn (length (buffer p ++ data) - Z.to_nat MAX_BUFFER_SIZE)
          (buffer p ++ data) /\
  Z.of_nat (length (append_data (buffer p) data)) <= MAX_BUFFER_SIZE /\
  (forall p' packets,
      parse p data = Some (p', packets) ->
      Z.of_nat (length (buffer p')) <= MAX_BUFFER_SIZE) /\
  (valid_config p ->
   exists p' packets,
     parse p data = Some (p', packets) /\
     Z.of_nat (length (buffer p')) <= MAX_BUFFER_SIZE).
Proof.
  intro Hops.
  assert (Hle : Z.of_nat (length (buffer p)) <= MAX_BUFFER_SIZE).
  { apply (apply_operations_bound ops new_parser p); [|exact Hops].
    cbn. pose proof MAX_BUFFER_SIZE_pos. lia. }
  split; [exact Hle|].
  split; [apply append_data_suffix; exact Hle|].
  split; [apply append_data_length; exact Hle|].
  split.
  - intros p' packets Hp. exact (parse_buffer_bound _ _ _ _ Hle Hp).
  - intro Hv. set (buf := append_data (buffer p) data).
    destruct (parse_loop_terminates p Hv (S (length buf)) buf [] ltac:(lia))
      as (pk & b & Hrun & _).
    assert (Hp : parse p data = Some (set_buffer p b, pk)).
    { unfold parse, parse_buffer. fold buf. rewrite Hrun. reflexivity. }
    exists (set_buffer p b), pk. split; [exact Hp|].
    exact (parse_buffer_bound _ _ _ _ Hle Hp).
Qed.

Lemma buffer_never_exceeds_cap_witness :
  exists p,
    apply_operations new_parser
      [OpConfigure 2 2 (f32_of_int 1); OpParse [1; 2; 3; 4; 5; 6; 7; 8; 9]]
    = Some p /\
    Z.of_nat (length (buffer p)) <= MAX_BUFFER_SIZE.
Proof.
  exists (set_buffer (configure new_parser 2 2 (f32_of_int 1)) [8; 9]).
  assert (Hops : apply_operations new_parser
                   [OpConfigure 2 2 (f32_of_int 1);
                    OpParse [1; 2; 3; 4; 5; 6; 7; 8; 9]]
                 = Some (set_buffer (configure new_parser 2 2 (f32_of_int 1)) [8; 9]))
    by (vm_compute; reflexivity).
  split; [exact Hops|].
  exact (proj1 (buffer_never_exceeds_cap _ _ [] Hops)).
Defined.

(** C10. No public operation of the parser ([configure], [setSyncBytes],
    [reset], [parse]) changes [useChecksum]: in every state reached from a
    fresh parser the flag still has its initial value [true], it is still
    [true] after one more operation, and a packet is pushed only from a
    window at the found sync position that passes [validateChecksum]. *)
Theorem useChecksum_never_cleared (ops : list operation) (p : ProtocolParser) :
  apply_operations new_parser ops = Some p ->
  useChecksum new_parser = true /\
  useChecksum p = true /\
  (forall o p', apply_operation p o = Some p' -> useChecksum p' = true) /\
  (forall buf pkt buf',
      loop_body p buf = Emit pkt buf' ->
      exists syncPos,
        find_sync (syncByte1 p) (syncByte2 p)
                  (S (length buf - Z.to_nat (size_t_of_int (getPacketSize p)))) buf
        = Found syncPos /\
        validateChecksum (skipn syncPos buf) (getPacketSize p) = Some true /\
        pkt = decode_packet p (skipn syncPos buf)).
Proof.
  intro Hops.
  assert (Hp : useChecksum p = true).
  { rewrite (apply_operations_useChecksum _ _ _ Hops). reflexivity. }
  split; [reflexivity|]. split; [exact Hp|]. split.
  - intros o p' Ho. rewrite (apply_operation_useChecksum _ _ _ Ho). exact Hp.
  - intros buf pkt buf' He. exact (loop_body_emit_checked _ _ _ _ Hp He).
Qed.

Lemma useChecksum_never_cleared_witness :
  exists p,
    apply_operations new_parser
      [OpConfigure 2 2 (f32_of_int 1); OpSetSyncBytes 0xA0 0x5A;
       OpParse [0xA0; 0x5A; 0; 10; 0; 20; 0xE4; 7]; OpReset]
    = Some p /\
    useChecksum p = true.
Proof.
  exists (configure new_parser 2 2 (f32_of_int 1)).
  assert (Hops : apply_operations new_parser
                   [OpConfigure 2 2 (f32_of_int 1); OpSetSyncBytes 0xA0 0x5A;
                    OpParse [0xA0; 0x5A; 0; 10; 0; 20; 0xE4; 7]; OpReset]
                 = Some (configure new_parser 2 2 (f32_of_int 1)))
    by (vm_compute; reflexivity).
  split; [exact Hops|].
  exact (proj1 (proj2 (useChecksum_never_cleared _ _ Hops))).
Defined.

(* ================================================================== *)
(** ** The no-sync retention (C8) *)
(* ================================================================== *)

(** C8, as stated, fails: with the packet size 7 and nine bytes holding no
    sync pair, the buffer left by [parse] holds two bytes, not one. *)
Lemma no_sync_one_byte_counterexample :
  ~ (forall (p : ProtocolParser) (data : list uint8)
            (p' : ProtocolParser) (packets : list DataPacket),
        valid_config p ->
        getPacketSize p <= Z.of_nat (length (append_data (buffer p) data)) ->
        (forall i : nat,
            Z.of_nat i + getPacketSize p
            <= Z.of_nat (length (append_data (buffer p) data)) ->
            ~ (byte_at (append_data (buffer p) data) i = syncByte1 p /\
               byte_at (append_data (buffer p) data) (S i) = syncByte2 p)) ->
        parse p data = Some (p', packets) ->
        (length (buffer p') <= 1)%nat).
Proof.
  intro H.
  specialize (H (configure new_parser 2 2 (f32_of_int 1))
                [1; 2; 3; 4; 5; 6; 7; 8; 9]
                (set_buffer (configure new_parser 2 2 (f32_of_int 1)) [8; 9])
                []).
  cut (length (buffer (set_buffer (configure new_parser 2 2 (f32_of_int 1))
                                  [8%Z; 9%Z])) <= 1)%nat; [cbn; lia|].
  apply H; clear H.
  - unfold valid_config. cbn. lia.
  - vm_compute. discriminate.
  - intros i Hi [Ha _]. revert Hi Ha.
    do 3 (destruct i as [|i]; [vm_compute; intros _ Ha; discriminate Ha|]).
    change (getPacketSize (configure new_parser 2 2 (f32_of_int 1))) with 7.
    change (length (append_data (buffer (configure new_parser 2 2 (f32_of_int 1)))
                                [1; 2; 3; 4; 5; 6; 7; 8; 9])) with 9%nat.
    intros Hi _. lia.
  - vm_compute. reflexivity.
Qed.

(** C8, amended. When the buffer holds at least [packetSize] bytes and the
    search finds no index [i] with the two sync bytes at [i], [i + 1] and
    [packetSize] bytes available from [i], [parse] returns no packet and
    leaves exactly the last two bytes of the buffer. *)
Theorem no_sync_keeps_last_two_bytes (p : ProtocolParser) (data : list uint8) :
  valid_config p ->
  getPacketSize p <= Z.of_nat (length (append_data (buffer p) data)) ->
  (forall i : nat,
      Z.of_nat i + getPacketSize p
      <= Z.of_nat (length (append_data (buffer p) data)) ->
      ~ (byte_at (append_data (buffer p) data) i = syncByte1 p /\
         byte_at (append_data (buffer p) data) (S i) = syncByte2 p)) ->
  parse p data
  = Some (set_buffer p (skipn (length (append_data (buffer p) data) - 2)
                              (append_data (buffer p) data)), []) /\
  length (skipn (length (append_data (buffer p) data) - 2)
                (append_data (buffer p) data)) = 2%nat.
Proof.
  intros Hv Hge Hno.
  pose proof (valid_config_packetSize p Hv) as Hs.
  set (buf := append_data (buffer p) data) in *.
  assert (Hscan : find_sync (syncByte1 p) (syncByte2 p)
                            (S (length buf - Z.to_nat (getPacketSize p))) buf
                  = NotFound).
  { apply find_sync_none; [lia|]. intros j Hj. apply Hno. lia. }
  split.
  - unfold parse, parse_buffer. fold buf. cbn [parse_loop].
    rewrite (loop_body_not_found p Hv buf Hge Hscan). reflexivity.
  - rewrite length_skipn. lia.
Qed.

Lemma no_sync_keeps_last_two_bytes_witness :
  parse (configure new_parser 2 2 (f32_of_int 1)) [1; 2; 3; 4; 5; 6; 7; 8; 9]
  = Some (set_buffer (configure new_parser 2 2 (f32_of_int 1)) [8; 9], []).
Proof.
  refine (proj1 (no_sync_keeps_last_two_bytes
                   (configure new_parser 2 2 (f32_of_int 1))
                   [1; 2; 3; 4; 5; 6; 7; 8; 9] _ _ _)).
  - unfold valid_config. cbn. lia.
  - vm_compute. discriminate.
  - intros i Hi [Ha _]. revert Hi Ha.
    do 3 (destruct i as [|i]; [vm_compute; intros _ Ha; discriminate Ha|]).
    change (getPacketSize (configure new_parser 2 2 (f32_of_int 1))) with 7.
    change (length (append_data (buffer (configure new_parser 2 2 (f32_of_int 1)))
                                [1; 2; 3; 4; 5; 6; 7; 8; 9])) with 9%nat.
    intros Hi _. lia.
Defined.

(* ================================================================== *)
(** ** Decoding reads only the packet *)
(* ================================================================== *)

Lemma byte_at_app (l rest : list uint8) (i : nat) :
  (i < length l)%nat -> byte_at (l ++ rest) i = byte_at l i.
Proof. intro Hi. unfold byte_at. apply app_nth1. exact Hi. Qed.

Lemma byte_at_skipn (l : list uint8) (n i : nat) :
  byte_at (skipn n l) i = byte_at l (n + i).
Proof. unfold byte_at. apply nth_skipn. Qed.

Lemma tl_skipn {A : Type} (l : list A) (i : nat) : tl (skipn i l) = skipn (S i) l.
Proof.
  replace (S i) with (1 + i)%nat by reflexivity. rewrite <- skipn_skipn.
  destruct (skipn i l); reflexivity.
Qed.

Lemma skipn_app_le {A : Type} (l rest : list A) (n : nat) :
  (n <= length l)%nat -> skipn n (l ++ rest) = skipn n l ++ rest.
Proof.
  intro Hle. rewrite skipn_app.
  replace (n - length l)%nat with 0%nat by lia. reflexivity.
Qed.

Lemma skipn_app_exact {A : Type} (l rest : list A) (n : nat) :
  n = length l -> skipn n (l ++ rest) = rest.
Proof.
  intros ->. rewrite skipn_app, skipn_all, Nat.sub_diag. reflexivity.
Qed.

Lemma bytesToSample_app (p : ProtocolParser) (l rest : list uint8) (b : Z) :
  2 <= b <= 4 -> b <= Z.of_nat (length l) ->
  bytesToSample p (l ++ rest) b = bytesToSample p l b.
Proof.
  intros Hb Hlen. unfold bytesToSample.
  assert (Hcase : b = 2 \/ b = 3 \/ b = 4) by lia.
  destruct Hcase as [->|[->| ->]]; cbn [rawValue_of];
    rewrite !byte_at_app by lia; reflexivity.
Qed.

Lemma decode_channels_app (p : ProtocolParser) (n : nat) (l rest : list uint8) :
  2 <= bytesPerSample p <= 4 ->
  Z.of_nat n * bytesPerSample p <= Z.of_nat (length l) ->
  decode_channels p n (l ++ rest) = decode_channels p n l.
Proof.
  intro Hb. revert l. induction n as [|n IH]; intros l Hlen; [reflexivity|].
  cbn [decode_channels]. rewrite bytesToSample_app by nia.
  rewrite skipn_app_le by nia. rewrite IH; [reflexivity|].
  rewrite length_skipn. nia.
Qed.

Lemma decode_packet_app (p : ProtocolParser) (pkt rest : list uint8) :
  valid_config p ->
  Z.of_nat (length pkt) = getPacketSize p ->
  decode_packet p (pkt ++ rest) = decode_packet p pkt.
Proof.
  intros [Hc Hb] Hlen. unfold decode_packet. f_equal.
  unfold getPacketSize in Hlen.
  assert (Hsz : 2 + numChannels p * bytesPerSample p <= Z.of_nat (length pkt))
    by (destruct (useChecksum p); lia).
  rewrite skipn_app_le by nia.
  apply decode_channels_app; [exact Hb|].
  rewrite length_skipn. rewrite Z2Nat.id by lia. nia.
Qed.

(* ================================================================== *)
(** ** Resynchronisation *)
(* ================================================================== *)

Section Resync.

Variable p : ProtocolParser.
Hypothesis Hvalid : valid_config p.

Let P : Z := getPacketSize p.

Lemma parse_loop_fuel_indep (f1 f2 : nat) (buf : list uint8) (acc : list DataPacket) :
  (length buf < f1)%nat -> (length buf < f2)%nat ->
  parse_loop f1 p buf acc = parse_loop f2 p buf acc.
Proof.
  intros H1 H2.
  destruct (parse_loop_terminates p Hvalid (S (length buf)) buf acc ltac:(lia))
    as (pk & b & Hrun & _).
  rewrite (parse_loop_more_fuel (S (length buf)) f1 p buf acc pk b ltac:(lia) Hrun).
  rewrite (parse_loop_more_fuel (S (length buf)) f2 p buf acc pk b ltac:(lia) Hrun).
  reflexivity.
Qed.

(** The loop on a buffer whose first window that passes the checksum
    starts at index [k], every sync position before [k] failing it: the
    bytes before [k] are dropped, the window at [k] is decoded, and the
    loop goes on behind it. *)
Lemma parse_loop_resync (fuel : nat) :
  forall (buf : list uint8) (k : nat) (acc : list DataPacket),
    useChecksum p = true ->
    Z.of_nat k + P <= Z.of_nat (length buf) ->
    byte_at buf k = syncByte1 p -> byte_at buf (S k) = syncByte2 p ->
    validateChecksum (skipn k buf) P = Some true ->
    (forall i, (i < k)%nat ->
               byte_at buf i = syncByte1 p -> byte_at buf (S i) = syncByte2 p ->
               validateChecksum (skipn i buf) P = Some false) ->
    (length buf < fuel)%nat ->
    parse_loop fuel p buf acc
    = parse_loop (S (length (skipn (k + Z.to_nat P) buf))) p
                 (skipn (k + Z.to_nat P) buf)
                 (acc ++ [decode_packet p (skipn k buf)]).
Proof.
  pose proof (valid_config_packetSize p Hvalid) as Hs. fold P in Hs.
  induction fuel as [|fuel IH]; intros buf k acc Hck Hfit Hk1 Hk2 Hok Hfalse Hfuel;
    [lia|].
  rewrite parse_loop_S.
  assert (Hge : P <= Z.of_nat (length buf)) by lia.
  destruct (find_sync (syncByte1 p) (syncByte2 p) (S (length buf - Z.to_nat P)) buf)
    as [i| |] eqn:Hscan.
  - destruct (find_sync_Found_inv _ _ _ _ _ Hscan) as (Hi & Hi2 & [Hh1 Hh2] & Hfirst).
    rewrite (loop_body_found p Hvalid buf i Hge Hscan). fold P. rewrite Hck.
    destruct (Nat.lt_trichotomy i k) as [Hlt|[->|Hgt]].
    + rewrite (Hfalse i Hlt Hh1 Hh2). rewrite tl_skipn.
      rewrite (IH (skipn (S i) buf) (k - S i)%nat acc Hck).
      * rewrite !skipn_skipn.
        replace (k - S i + Z.to_nat P + S i)%nat with (k + Z.to_nat P)%nat by lia.
        replace (k - S i + S i)%nat with k by lia. reflexivity.
      * rewrite length_skipn. lia.
      * rewrite byte_at_skipn. replace (S i + (k - S i))%nat with k by lia.
        exact Hk1.
      * rewrite byte_at_skipn. replace (S i + S (k - S i))%nat with (S k) by lia.
        exact Hk2.
      * rewrite skipn_skipn. replace (k - S i + S i)%nat with k by lia. exact Hok.
      * intros j Hj Hj1 Hj2. rewrite skipn_skipn.
        rewrite byte_at_skipn in Hj1, Hj2.
        replace (S i + S j)%nat with (S (j + S i)) in Hj2 by lia.
        replace (S i + j)%nat with (j + S i)%nat in Hj1 by lia.
        apply Hfalse; [lia | exact Hj1 | exact Hj2].
      * rewrite length_skipn. lia.
    + rewrite Hok, skipn_skipn.
      replace (Z.to_nat P + k)%nat with (k + Z.to_nat P)%nat by lia.
      apply parse_loop_fuel_indep; rewrite length_skipn; lia.
    + exfalso. apply (Hfirst k Hgt). split; assumption.
  - exfalso. apply (find_sync_NotFound_inv _ _ _ _ Hscan k); [lia|].
    split; assumption.
  - exfalso. revert Hscan. apply find_sync_safe. lia.
Qed.

End Resync.

Section Framed.

Variable p : ProtocolParser.
Hypothesis Hvalid : valid_config p.

Let P : Z := getPacketSize p.

Lemma parse_loop_short (fuel : nat) (buf : list uint8) (acc : list DataPacket) :
  (0 < fuel)%nat -> Z.of_nat (length buf) < P ->
  parse_loop fuel p buf acc = Done acc buf.
Proof.
  intros Hfuel Hlt. destruct fuel as [|fuel]; [lia|].
  rewrite parse_loop_S, (loop_body_short p Hvalid buf Hlt). reflexivity.
Qed.

(** A well-framed packet at the front of the buffer is decoded and removed. *)
Lemma loop_body_well_framed (pkt rest : list uint8) :
  well_framed p pkt ->
  loop_body p (pkt ++ rest) = Emit (decode_packet p pkt) rest.
Proof.
  intros (Hlen & Hs1 & Hs2 & Hsum). fold P in Hlen, Hsum.
  pose proof (valid_config_packetSize p Hvalid) as Hs. fold P in Hs.
  assert (Hge : P <= Z.of_nat (length (pkt ++ rest))) by (rewrite length_app; lia).
  assert (Hscan : find_sync (syncByte1 p) (syncByte2 p)
                            (S (length (pkt ++ rest) - Z.to_nat P)) (pkt ++ rest)
                  = Found 0).
  { apply find_sync_first.
    - rewrite length_app. lia.
    - lia.
    - split; rewrite byte_at_app by lia; assumption.
    - intros j Hj. lia. }
  rewrite (loop_body_found p Hvalid _ 0 Hge Hscan). fold P. cbn [skipn].
  rewrite validateChecksum_app by exact Hlen. rewrite Hsum.
  rewrite (decode_packet_app p pkt rest Hvalid Hlen).
  rewrite skipn_app_exact by lia.
  destruct (useChecksum p); reflexivity.
Qed.

End Framed.

(* ================================================================== *)
(** ** Checksum failure: one byte dropped, search run again (C2) *)
(* ================================================================== *)



(* ================================================================== *)
(** ** One garbage byte, then a packet (C3) *)
(* ================================================================== *)

(** C3. For every valid configuration, a single [parse] call that receives
    into an empty buffer one arbitrary byte followed by one well-framed
    packet returns exactly one packet, marked valid, and removes at most
    [packetSize + 1] bytes.  The packet is the decoding of the framed one
    and the buffer is left empty, unless the garbage byte and both sync
    bytes are one and the same value (then the window that starts at the
    garbage byte is tried first). *)
Theorem resync_after_one_garbage_byte (p : ProtocolParser) (g : uint8)
        (pkt : list uint8) :
  valid_config p ->
  buffer p = [] ->
  well_framed p pkt ->
  exists p' packet,
    parse p (g :: pkt) = Some (p', [packet]) /\
    valid packet = true /\
    0 <= consumed p (g :: pkt) p' <= getPacketSize p + 1 /\
    (~ (g = syncByte1 p /\ syncByte1 p = syncByte2 p) ->
     packet = decode_packet p pkt /\ buffer p' = []).
Proof.
  intros Hv Hempty Hwf.
  pose proof (valid_config_packetSize p Hv) as Hs.
  pose proof Hwf as (Hlen & Hs1 & Hs2 & Hsum).
  pose proof (loop_body_well_framed p Hv pkt [] Hwf) as Hpkt.
  rewrite app_nil_r in Hpkt.
  unfold parse, parse_buffer, consumed. rewrite Hempty.
  rewrite append_data_small
    by (cbn [length]; change MAX_BUFFER_SIZE with 65536; lia).
  cbn [app]. set (buf := g :: pkt).
  assert (Hblen : length buf = S (length pkt)) by reflexivity.
  assert (Hge : getPacketSize p <= Z.of_nat (length buf)) by lia.
  rewrite Hblen, parse_loop_S.
  assert (Hhit1 : byte_at buf 1 = syncByte1 p /\ byte_at buf 2 = syncByte2 p).
  { split; [exact Hs1 | exact Hs2]. }
  destruct (find_sync (syncByte1 p) (syncByte2 p)
                      (S (length buf - Z.to_nat (getPacketSize p))) buf)
    as [i| |] eqn:Hscan.
  - destruct (find_sync_Found_inv _ _ _ _ _ Hscan) as (Hi & _ & [Hh1 Hh2] & Hfirst).
    rewrite (loop_body_found p Hv buf i Hge Hscan).
    assert (Hcase : i = 0%nat \/ i = 1%nat).
    { destruct i as [|[|i]]; [left; reflexivity | right; reflexivity |].
      exfalso. apply (Hfirst 1%nat); [lia | exact Hhit1]. }
    destruct Hcase as [-> | ->].
    + (* the window at the garbage byte is tried first *)
      assert (Hsame : g = syncByte1 p /\ syncByte1 p = syncByte2 p).
      { split; [exact Hh1|]. rewrite <- Hh2. symmetry. exact Hs1. }
      cbn [skipn].
      assert (Hsome : exists b, (if useChecksum p
                                 then validateChecksum buf (getPacketSize p)
                                 else Some true) = Some b).
      { destruct (useChecksum p); [|eauto].
        rewrite validateChecksum_pos by lia. eauto. }
      destruct Hsome as [b ->]. destruct b.
      * assert (Hrest : length (skipn (Z.to_nat (getPacketSize p)) buf) = 1%nat)
          by (rewrite length_skipn; lia).
        rewrite parse_loop_short by (try exact Hv; lia).
        eexists _, _. split; [reflexivity|]. split; [reflexivity|].
        split; [cbn [set_buffer buffer length]; lia|].
        intro Hne. contradiction.
      * cbn [tl buf]. rewrite parse_loop_S, Hpkt.
        rewrite parse_loop_short by (try exact Hv; cbn; lia).
        eexists _, _. split; [reflexivity|]. split; [reflexivity|].
        split; [cbn [set_buffer buffer length]; lia|].
        intros _. split; reflexivity.
    + cbn [skipn buf]. rewrite Hsum.
      replace (skipn (Z.to_nat (getPacketSize p)) pkt) with (@nil uint8)
        by (symmetry; apply skipn_all2; lia).
      assert (Hemit : (if useChecksum p then Some true else Some true) = Some true)
        by (destruct (useChecksum p); reflexivity).
      rewrite Hemit.
      rewrite parse_loop_short by (try exact Hv; cbn; lia).
      eexists _, _. split; [reflexivity|]. split; [reflexivity|].
      split; [cbn [set_buffer buffer length]; lia|].
      intros _. split; reflexivity.
  - exfalso. apply (find_sync_NotFound_inv _ _ _ _ Hscan 1%nat); [lia|].
    exact Hhit1.
  - exfalso. revert Hscan. apply find_sync_safe. lia.
Qed.

Lemma resync_after_one_garbage_byte_witness :
  parse (configure new_parser 2 2 (f32_of_int 1))
        (0x37 :: [0xA0; 0x5A; 0x00; 0x0A; 0x00; 0x14; 0xE4])
  = Some (set_buffer (configure new_parser 2 2 (f32_of_int 1)) [],
          [mkDataPacket [f32_of_int 10; f32_of_int 20] 0 true]).
Proof.
  destruct (resync_after_one_garbage_byte
              (configure new_parser 2 2 (f32_of_int 1)) 0x37
              [0xA0; 0x5A; 0x00; 0x0A; 0x00; 0x14; 0xE4])
    as (p' & packet & Hparse & _).
  - unfold valid_config. cbn. lia.
  - reflexivity.
  - repeat split; vm_compute; reflexivity.
  - vm_compute. reflexivity.
Defined.

(* ================================================================== *)
(** ** Termination and false-sync recovery (C4) *)
(* ================================================================== *)

(** C4. For every valid configuration, buffer state and input, [parse]
    returns: its loop leaves, without fault, within one more turn than the
    buffer has bytes, and any larger bound gives the same result.  When the
    buffer holds a stretch [pre] (for instance a payload that contains the
    sync pair), then a well-framed packet, and every sync position inside
    [pre] opens a window that fails the checksum, the false starts are
    dropped one after the other and the packet is returned first, ahead of
    whatever the bytes behind it yield. *)
Theorem parse_never_livelocks (p : ProtocolParser) (data pre pkt rest : list uint8) :
  valid_config p ->
  (exists packets buf',
      parse p data = Some (set_buffer p buf', packets) /\
      forall fuel,
        (length (append_data (buffer p) data) < fuel)%nat ->
        parse_loop fuel p (append_data (buffer p) data) [] = Done packets buf') /\
  (useChecksum p = true ->
   append_data (buffer p) data = pre ++ pkt ++ rest ->
   well_framed p pkt ->
   (forall i, (i < length pre)%nat ->
              sync_at p (pre ++ pkt ++ rest) i ->
              validateChecksum (skipn i (pre ++ pkt ++ rest)) (getPacketSize p)
              = Some false) ->
   exists later buf',
     parse p data = Some (set_buffer p buf', decode_packet p pkt :: later) /\
     parse_loop (S (length rest)) p rest [] = Done later buf').
Proof.
  intro Hv. pose proof (valid_config_packetSize p Hv) as Hs. split.
  - set (buf := append_data (buffer p) data).
    destruct (parse_loop_terminates p Hv (S (length buf)) buf [] ltac:(lia))
      as (pk & b & Hrun & _).
    exists pk, b. split.
    + unfold parse, parse_buffer. fold buf. rewrite Hrun. reflexivity.
    + intros fuel Hfuel.
      exact (parse_loop_more_fuel (S (length buf)) fuel p buf [] pk b
                                  ltac:(lia) Hrun).
  - intros Hck Hbuf (Hlen & Hs1 & Hs2 & Hsum) Hfalse.
    destruct (parse_loop_terminates p Hv (S (length rest)) rest [] ltac:(lia))
      as (later & b & Hrun & _).
    exists later, b. split; [|exact Hrun].
    unfold parse, parse_buffer. rewrite Hbuf.
    rewrite (parse_loop_resync p Hv _ (pre ++ pkt ++ rest) (length pre) [] Hck).
    + replace (length pre + Z.to_nat (getPacketSize p))%nat
        with (length (pre ++ pkt)) by (rewrite length_app; lia).
      rewrite (skipn_app_exact pre (pkt ++ rest) (length pre) eq_refl).
      rewrite (app_assoc pre pkt rest).
      rewrite (skipn_app_exact (pre ++ pkt) rest (length (pre ++ pkt)) eq_refl).
      rewrite (decode_packet_app p pkt rest Hv Hlen).
      rewrite parse_loop_acc, Hrun. reflexivity.
    + rewrite !length_app. lia.
    + unfold byte_at. rewrite app_nth2 by lia. rewrite Nat.sub_diag.
      rewrite app_nth1 by lia. exact Hs1.
    + unfold byte_at. rewrite app_nth2 by lia.
      replace (S (length pre) - length pre)%nat with 1%nat by lia.
      rewrite app_nth1 by lia. exact Hs2.
    + rewrite skipn_app_exact by reflexivity.
      rewrite validateChecksum_app by exact Hlen. exact Hsum.
    + intros i Hi Hh1 Hh2. apply Hfalse; [exact Hi|].
      repeat split; try assumption. rewrite !length_app. lia.
    + lia.
Qed.

Lemma parse_never_livelocks_witness :
  parse (configure new_parser 2 2 (f32_of_int 1))
        ([0xA0; 0x5A; 0xA0; 0x5A; 0x00; 0x00; 0xFF]
           ++ [0xA0; 0x5A; 0x00; 0x01; 0x00; 0x02; 0xF9] ++ [0xA0; 0x5A])
  = Some (set_buffer (configure new_parser 2 2 (f32_of_int 1)) [0xA0; 0x5A],
          [mkDataPacket [f32_of_int 1; f32_of_int 2] 0 true]).
Proof.
  destruct (proj2 (parse_never_livelocks
                     (configure new_parser 2 2 (f32_of_int 1))
                     ([0xA0; 0x5A; 0xA0; 0x5A; 0x00; 0x00; 0xFF]
                        ++ [0xA0; 0x5A; 0x00; 0x01; 0x00; 0x02; 0xF9]
                        ++ [0xA0; 0x5A])
                     [0xA0; 0x5A; 0xA0; 0x5A; 0x00; 0x00; 0xFF]
                     [0xA0; 0x5A; 0x00; 0x01; 0x00; 0x02; 0xF9]
                     [0xA0; 0x5A] ltac:(unfold valid_config; cbn; lia)))
    as (later & buf' & Hparse & Hrest).
  - reflexivity.
  - vm_compute. reflexivity.
  - repeat split; vm_compute; reflexivity.
  - intros i Hi Hsync. settle_sync_positions i Hi Hsync.
  - rewrite Hparse. vm_compute in Hrest.
    injection Hrest as <- <-. reflexivity.
Defined.

(* ================================================================== *)
(** ** Sample decoding (C5) *)
(* ================================================================== *)

Lemma land_shiftl_low (a b n : Z) :
  0 <= n -> 0 <= b < 2 ^ n -> Z.land (Z.shiftl a n) b = 0.
Proof.
  intros Hn Hb. apply Z.bits_inj'. intros k Hk.
  rewrite Z.land_spec, Z.bits_0.
  destruct (Z.lt_ge_cases k n) as [Hlt|Hge].
  - rewrite Z.shiftl_spec_low by exact Hlt. reflexivity.
  - rewrite <- (Z.mod_small b (2 ^ n)) by exact Hb.
    rewrite Z.mod_pow2_bits_high by lia. apply andb_false_r.
Qed.

Lemma lor_shiftl_add (a b n : Z) :
  0 <= n -> 0 <= b < 2 ^ n -> Z.lor (Z.shiftl a n) b = a * 2 ^ n + b.
Proof.
  intros Hn Hb. rewrite <- (Z.shiftl_mul_pow2 a n Hn).
  rewrite <- Z.add_lor_land, (land_shiftl_low a b n Hn Hb). lia.
Qed.

Lemma lor_add_low (x b n : Z) :
  0 <= n -> 0 <= b < 2 ^ n -> x mod 2 ^ n = 0 -> Z.lor x b = x + b.
Proof.
  intros Hn Hb Hx.
  assert (Hpow : 0 < 2 ^ n) by (apply Z.pow_pos_nonneg; lia).
  assert (Hdiv : x = x / 2 ^ n * 2 ^ n).
  { pose proof (Z.div_mod x (2 ^ n) ltac:(lia)) as Hdm. rewrite Hx in Hdm. lia. }
  rewrite Hdiv at 1. rewrite <- (Z.shiftl_mul_pow2 _ n Hn).
  rewrite (lor_shiftl_add _ b n Hn Hb). lia.
Qed.

Lemma land_255 (x : Z) : Z.land x 255 = x mod 256.
Proof. change 255 with (Z.ones 8). rewrite Z.land_ones by lia. reflexivity. Qed.

(** The test of bit 23 on a 24-bit pattern *)
Lemma land_bit23 (r : Z) :
  0 <= r < 16777216 -> (Z.land r 0x800000 =? 0) = (r <? 8388608).
Proof.
  intro Hr. destruct (Z.ltb_spec r 8388608) as [Hlt|Hge].
  - apply Z.eqb_eq. apply Z.bits_inj'. intros k Hk.
    rewrite Z.land_spec, Z.bits_0. change 0x800000 with (2 ^ 23).
    rewrite Z.pow2_bits_eqb by lia.
    destruct (Z.eqb_spec 23 k) as [<-|Hne]; [|apply andb_false_r].
    rewrite <- (Z.mod_small r (2 ^ 23)) by (change (2 ^ 23) with 8388608; lia).
    rewrite Z.mod_pow2_bits_high by lia. reflexivity.
  - apply Z.eqb_neq. intro Hz.
    assert (Hbit : Z.testbit (Z.land r 0x800000) 23 = true).
    { rewrite Z.land_spec. change 0x800000 with (2 ^ 23).
      rewrite Z.pow2_bits_true by lia. rewrite andb_true_r.
      apply Z.testbit_true; [lia|]. change (2 ^ 23) with 8388608.
      Z.div_mod_to_equations. lia. }
    rewrite Hz, Z.bits_0 in Hbit. discriminate.
Qed.

Lemma encode_be_2 (v : Z) :
  encode_be 2 v = [(v / 256) mod 256; v mod 256].
Proof.
  change (encode_be 2 v)
    with [Z.land (Z.shiftr v 8) 255; Z.land (Z.shiftr v 0) 255].
  rewrite !land_255, Z.shiftr_0_r, Z.shiftr_div_pow2 by lia. reflexivity.
Qed.

Lemma encode_be_3 (v : Z) :
  encode_be 3 v = [(v / 65536) mod 256; (v / 256) mod 256; v mod 256].
Proof.
  change (encode_be 3 v)
    with [Z.land (Z.shiftr v 16) 255; Z.land (Z.shiftr v 8) 255;
          Z.land (Z.shiftr v 0) 255].
  rewrite !land_255, Z.shiftr_0_r, !Z.shiftr_div_pow2 by lia. reflexivity.
Qed.

Lemma encode_be_4 (v : Z) :
  encode_be 4 v
  = [(v / 16777216) mod 256; (v / 65536) mod 256; (v / 256) mod 256; v mod 256].
Proof.
  change (encode_be 4 v)
    with [Z.land (Z.shiftr v 24) 255; Z.land (Z.shiftr v 16) 255;
          Z.land (Z.shiftr v 8) 255; Z.land (Z.shiftr v 0) 255].
  rewrite !land_255, Z.shiftr_0_r, !Z.shiftr_div_pow2 by lia. reflexivity.
Qed.

Lemma rawValue_of_16 (v : Z) :
  -32768 <= v < 32768 -> rawValue_of (encode_be 2 v) 2 = Some v.
Proof.
  intro Hv. rewrite encode_be_2. cbn [rawValue_of byte_at nth].
  rewrite lor_shiftl_add by (try lia; change (2 ^ 8) with 256;
                             Z.div_mod_to_equations; lia).
  f_equal. unfold wrap16. change (2 ^ 8) with 256.
  Z.div_mod_to_equations. lia.
Qed.

Lemma rawValue_of_24 (v : Z) :
  -8388608 <= v < 8388608 -> rawValue_of (encode_be 3 v) 3 = Some v.
Proof.
  intro Hv. rewrite encode_be_3. cbn [rawValue_of byte_at nth].
  set (b0 := (v / 65536) mod 256). set (b1 := (v / 256) mod 256).
  set (b2 := v mod 256).
  assert (Hb0 : 0 <= b0 < 256) by (apply Z.mod_pos_bound; lia).
  assert (Hb1 : 0 <= b1 < 256) by (apply Z.mod_pos_bound; lia).
  assert (Hb2 : 0 <= b2 < 256) by (apply Z.mod_pos_bound; lia).
  assert (Hr : Z.lor (Z.lor (Z.shiftl b0 16) (Z.shiftl b1 8)) b2
               = b0 * 65536 + b1 * 256 + b2).
  { rewrite !Z.shiftl_mul_pow2 by lia.
    change (2 ^ 16) with 65536. change (2 ^ 8) with 256.
    rewrite (lor_add_low (b0 * 65536) (b1 * 256) 16)
      by (try lia; change (2 ^ 16) with 65536;
          try lia; Z.div_mod_to_equations; lia).
    rewrite (lor_add_low (b0 * 65536 + b1 * 256) b2 8)
      by (try lia; change (2 ^ 8) with 256;
          try lia; Z.div_mod_to_equations; lia).
    reflexivity. }
  rewrite Hr. set (r := b0 * 65536 + b1 * 256 + b2).
  assert (Hrange : 0 <= r < 16777216) by (unfold r; lia).
  assert (Hmod : r = v mod 16777216).
  { unfold r, b0, b1, b2. Z.div_mod_to_equations. lia. }
  rewrite (land_bit23 r Hrange). f_equal.
  destruct (Z.ltb_spec r 8388608) as [Hlt|Hge].
  - rewrite Hmod in *. Z.div_mod_to_equations. lia.
  - rewrite Z.lor_comm. change 0xFF000000 with (Z.shiftl 255 24).
    rewrite lor_shiftl_add by (try lia; change (2 ^ 24) with 16777216; lia).
    change (2 ^ 24) with 16777216. unfold wrap32.
    rewrite Hmod in *. Z.div_mod_to_equations. lia.
Qed.

Lemma rawValue_of_32 (v : Z) :
  -2147483648 <= v < 2147483648 -> rawValue_of (encode_be 4 v) 4 = Some v.
Proof.
  intro Hv. rewrite encode_be_4. cbn [rawValue_of byte_at nth].
  set (b0 := (v / 16777216) mod 256). set (b1 := (v / 65536) mod 256).
  set (b2 := (v / 256) mod 256). set (b3 := v mod 256).
  assert (Hb0 : 0 <= b0 < 256) by (apply Z.mod_pos_bound; lia).
  assert (Hb1 : 0 <= b1 < 256) by (apply Z.mod_pos_bound; lia).
  assert (Hb2 : 0 <= b2 < 256) by (apply Z.mod_pos_bound; lia).
  assert (Hb3 : 0 <= b3 < 256) by (apply Z.mod_pos_bound; lia).
  assert (Hr : Z.lor (Z.lor (Z.lor (Z.shiftl b0 24) (Z.shiftl b1 16))
                            (Z.shiftl b2 8)) b3
               = b0 * 16777216 + b1 * 65536 + b2 * 256 + b3).
  { rewrite !Z.shiftl_mul_pow2 by lia.
    change (2 ^ 24) with 16777216. change (2 ^ 16) with 65536.
    change (2 ^ 8) with 256.
    rewrite (lor_add_low (b0 * 16777216) (b1 * 65536) 24)
      by (try lia; change (2 ^ 24) with 16777216;
          try lia; Z.div_mod_to_equations; lia).
    rewrite (lor_add_low (b0 * 16777216 + b1 * 65536) (b2 * 256) 16)
      by (try lia; change (2 ^ 16) with 65536;
          try lia; Z.div_mod_to_equations; lia).
    rewrite (lor_add_low (b0 * 16777216 + b1 * 65536 + b2 * 256) b3 8)
      by (try lia; change (2 ^ 8) with 256;
          try lia; Z.div_mod_to_equations; lia).
    reflexivity. }
  rewrite Hr. f_equal. unfold wrap32, b0, b1, b2, b3.
  Z.div_mod_to_equations. lia.
Qed.

Lemma rawValue_of_default (bytes : list uint8) (numBytes : Z) :
  ~ 2 <= numBytes <= 4 -> rawValue_of bytes numBytes = None.
Proof.
  intro Hw. unfold rawValue_of.
  destruct numBytes as [|q|q]; try reflexivity.
  destruct q as [[q|q|]|[q|q|]|]; try reflexivity; try lia.
  destruct q; try reflexivity; lia.
Qed.

Lemma encode_be_length (width : nat) (value : Z) :
  length (encode_be width value) = width.
Proof. unfold encode_be. rewrite length_map, length_seq. reflexivity. Qed.

Lemma encode_be_bytes_ok (width : nat) (value : Z) :
  bytes_ok (encode_be width value).
Proof.
  unfold bytes_ok, encode_be. apply Forall_map. apply Forall_forall.
  intros k _. unfold is_byte. rewrite land_255. apply Z.mod_pos_bound. lia.
Qed.

(** C5. For a width of 2, 3 or 4 bytes and every value of the signed range
    of that width, the most negative one included, the decoder recovers the
    value from its big-endian two's-complement bytes and returns the
    [float] product of the value and the scale factor, [rawValue *
    scaleFactor] with [rawValue] equal to the value.  For any other width it
    returns [0.0f], whatever the bytes; the decoder is total. *)
Theorem bytesToSample_roundtrip (p : ProtocolParser) (width value : Z)
        (bytes : list uint8) :
  (2 <= width <= 4 ->
   in_signed_range width value ->
   length (encode_be (Z.to_nat width) value) = Z.to_nat width /\
   bytes_ok (encode_be (Z.to_nat width) value) /\
   rawValue_of (encode_be (Z.to_nat width) value) width = Some value /\
   bytesToSample p (encode_be (Z.to_nat width) value) width
   = f32_mul (f32_of_int value) (scaleFactor p)) /\
  (~ 2 <= width <= 4 -> bytesToSample p bytes width = f32_zero).
Proof.
  split.
  - intros Hw Hrange.
    split; [apply encode_be_length|]. split; [apply encode_be_bytes_ok|].
    assert (Hraw : rawValue_of (encode_be (Z.to_nat width) value) width
                   = Some value).
    { unfold in_signed_range in Hrange.
      assert (Hcase : width = 2 \/ width = 3 \/ width = 4) by lia.
      destruct Hcase as [->|[->| ->]].
      - apply rawValue_of_16. change (2 ^ (8 * 2 - 1)) with 32768 in Hrange. lia.
      - apply rawValue_of_24. change (2 ^ (8 * 3 - 1)) with 8388608 in Hrange. lia.
      - apply rawValue_of_32.
        change (2 ^ (8 * 4 - 1)) with 2147483648 in Hrange. lia. }
    split; [exact Hraw|]. unfold bytesToSample. rewrite Hraw. reflexivity.
  - intro Hw. unfold bytesToSample.
    rewrite (rawValue_of_default bytes width Hw). reflexivity.
Qed.

Lemma bytesToSample_roundtrip_witness :
  bytesToSample (configure new_parser 2 4 (f32_of_int 1))
                [0x80; 0x00; 0x00; 0x00] 4
  = f32_mul (f32_of_int (-2147483648)) (f32_of_int 1)
  /\ bytesToSample (configure new_parser 2 4 (f32_of_int 1)) [1; 2; 3; 4; 5] 5
     = f32_zero.
Proof.
  destruct (bytesToSample_roundtrip (configure new_parser 2 4 (f32_of_int 1))
                                    4 (-2147483648) []) as [Hdec _].
  destruct (bytesToSample_roundtrip (configure new_parser 2 4 (f32_of_int 1))
                                    5 0 [1; 2; 3; 4; 5]) as [_ Hdef].
  split.
  - refine (proj2 (proj2 (proj2 (Hdec _ _)))).
    + lia.
    + unfold in_signed_range. change (2 ^ (8 * 4 - 1)) with 2147483648. lia.
  - apply Hdef. lia.
Defined.

(* ================================================================== *)
(** ** Fragmentation (C1) *)
(* ================================================================== *)

(** C1 asks that a stream fed one byte at a time yield the packets of the
    same stream fed in one call.  The source does not: with two channels of
    two bytes (packet size 7), one garbage byte and then a well-framed
    packet give the packet in one call; fed bytewise, the seventh byte
    fills the buffer while the only index searched, 0, holds the garbage
    byte, so the no-sync branch keeps two bytes and the packet is lost. *)
Theorem fragmentation_loses_packet :
  parse_chunks (configure new_parser 2 2 (f32_of_int 1))
               [[0x00; 0xA0; 0x5A; 0x00; 0x0A; 0x00; 0x14; 0xE4]]
  = Some (set_buffer (configure new_parser 2 2 (f32_of_int 1)) [],
          [mkDataPacket [f32_of_int 10; f32_of_int 20] 0 true])
  /\ parse_chunks (configure new_parser 2 2 (f32_of_int 1))
                  (bytewise [0x00; 0xA0; 0x5A; 0x00; 0x0A; 0x00; 0x14; 0xE4])
     = Some (set_buffer (configure new_parser 2 2 (f32_of_int 1))
                        [0x00; 0x14; 0xE4],
             []).
Proof. split; vm_compute; reflexivity. Qed.

(* ================================================================== *)
(** ** Live acquisition: sample indices and timestamps (C9) *)
(* ================================================================== *)

Lemma f64_sub_zero (x : float64) : f64_sub x f64_zero = x.
Proof. destruct x as [[|]| | |]; reflexivity. Qed.

Lemma f64_div_zero (y : float64) :
  positive_finite y -> f64_div f64_zero y = f64_zero.
Proof. intros (m & e & ->). reflexivity. Qed.


Section Publish.

Variable rate : float64.
Hypothesis Hrate : positive_finite rate.

(** The timestamp of sample [k] *)
Let stamp (k : Z) : float64 := f64_div (f64_of_int k) rate.



End Publish.

Section PacketCount.

Variable p : ProtocolParser.
Hypothesis Hvalid : valid_config p.

Lemma loop_body_exit_short (buf b : list uint8) :
  loop_body p buf = Exit b -> Z.of_nat (length b) < getPacketSize p.
Proof.
  pose proof (valid_config_packetSize p Hvalid) as Hs.
  destruct (Z.lt_ge_cases (Z.of_nat (length buf)) (getPacketSize p)) as [Hlt|Hge].
  { rewrite (loop_body_short p Hvalid buf Hlt). intro H. injection H as <-. exact Hlt. }
  destruct (find_sync (syncByte1 p) (syncByte2 p)
                      (S (length buf - Z.to_nat (getPacketSize p))) buf)
    as [i| |] eqn:Hscan.
  - rewrite (loop_body_found p Hvalid buf i Hge Hscan).
    destruct (if useChecksum p then _ else _) as [[|]|]; discriminate.
  - rewrite (loop_body_not_found p Hvalid buf Hge Hscan).
    intro H. injection H as <-. rewrite length_skipn. lia.
  - exfalso. revert Hscan. apply find_sync_safe. lia.
Qed.

(** Each returned packet used up [packetSize] bytes of the buffer, and
    fewer than [packetSize] bytes stay behind. *)
Lemma parse_loop_count (fuel : nat) (buf : list uint8)
      (acc packets : list DataPacket) (b : list uint8) :
  parse_loop fuel p buf acc = Done packets b ->
  Z.of_nat (length b) < getPacketSize p /\
  Z.of_nat (length packets) * getPacketSize p + Z.of_nat (length b)
  <= Z.of_nat (length buf) + Z.of_nat (length acc) * getPacketSize p.
Proof.
  pose proof (valid_config_packetSize p Hvalid) as Hs.
  revert buf acc. induction fuel as [|fuel IH]; intros buf acc H; [discriminate|].
  rewrite parse_loop_S in H.
  pose proof (loop_body_progress p Hvalid buf) as Hprog.
  destruct (loop_body p buf) as [b1|b1|pkt b1|] eqn:Hbody.
  - injection H as <- <-. split; [exact (loop_body_exit_short _ _ Hbody) | lia].
  - destruct (IH _ _ H) as [H1 H2]. split; [exact H1 | lia].
  - destruct (IH _ _ H) as [H1 H2]. split; [exact H1|].
    rewrite length_app in H2. cbn [length] in H2. lia.
  - discriminate.
Qed.

Lemma parse_total (data : list uint8) :
  exists packets b,
    parse p data = Some (set_buffer p b, packets) /\
    Forall (fun pkt => valid pkt = true) packets /\
    Z.of_nat (length b) < getPacketSize p /\
    Z.of_nat (length packets) * getPacketSize p + Z.of_nat (length b)
    <= Z.of_nat (length (append_data (buffer p) data)).
Proof.
  set (buf := append_data (buffer p) data).
  destruct (parse_loop_terminates p Hvalid (S (length buf)) buf [] ltac:(lia))
    as (pk & b & Hrun & _).
  exists pk, b. split; [|split].
  - unfold parse, parse_buffer. fold buf. rewrite Hrun. reflexivity.
  - exact (parse_loop_valid_flags p _ _ _ _ _ Hrun (Forall_nil _)).
  - destruct (parse_loop_count _ _ _ _ _ Hrun) as [H1 H2].
    split; [exact H1 | cbn [length] in H2; lia].
Qed.

End PacketCount.

Section Live.

Variable rate : float64.
Hypothesis Hrate : positive_finite rate.



End Live.



Example live_three_samples :
  match run_cycles (startAcquisition new_thread)
          [ [0xA0; 0x5A] ++ repeat 0 16 ++ [0xFA] ++ [0xA0; 0x5A];
            repeat 0 16 ++ [0xFA] ++ [0xA0; 0x5A] ++ repeat 0 16 ++ [0xFA] ]
  with
  | Some (_, bs) => Some (map batchSampleNumbers bs, published_timestamps bs)
  | None => None
  end
  = Some ([[0]; [1; 2]],
          [f64_zero;
           f64_div (f64_of_int 1) (f64_of_int 256);
           f64_div (f64_of_int 2) (f64_of_int 256)]).
Proof. vm_compute. reflexivity. Qed.

(* ================================================================== *)
(** ** The XOR checksum *)
(* ================================================================== *)

Lemma fold_lxor_init (l : list uint8) (a : Z) :
  fold_left Z.lxor l a = Z.lxor a (xor_bytes l).
Proof.
  unfold xor_bytes. revert a. induction l as [|x l IH]; intro a; cbn [fold_left].
  - rewrite Z.lxor_0_r. reflexivity.
  - rewrite (IH (Z.lxor a x)), (IH (Z.lxor 0 x)), Z.lxor_0_l, Z.lxor_assoc.
    reflexivity.
Qed.

Lemma xor_bytes_app (l1 l2 : list uint8) :
  xor_bytes (l1 ++ l2) = Z.lxor (xor_bytes l1) (xor_bytes l2).
Proof.
  unfold xor_bytes at 1. rewrite fold_left_app. fold (xor_bytes l1).
  apply fold_lxor_init.
Qed.

Lemma xor_bytes_cons (x : uint8) (l : list uint8) :
  xor_bytes (x :: l) = Z.lxor x (xor_bytes l).
Proof. exact (xor_bytes_app [x] l). Qed.

Lemma firstn_snoc (l : list uint8) (n : nat) :
  (n < length l)%nat -> firstn (S n) l = firstn n l ++ [byte_at l n].
Proof.
  revert n. induction l as [|x l IH]; intros n Hn; [cbn in Hn; lia|].
  destruct n as [|n]; [reflexivity|].
  cbn [firstn app byte_at nth]. f_equal. apply IH. cbn in Hn. lia.
Qed.

Lemma validateChecksum_xor (packet : list uint8) (size : Z) :
  0 < size ->
  size <= Z.of_nat (length packet) ->
  validateChecksum packet size
  = Some (xor_bytes (firstn (Z.to_nat size) packet) =? 0).
Proof.
  intros Hpos Hlen. rewrite validateChecksum_pos by exact Hpos.
  replace (Z.to_nat size) with (S (Z.to_nat (size - 1))) by lia.
  rewrite firstn_snoc by lia. rewrite xor_bytes_app. f_equal.
  set (a := xor_bytes (firstn (Z.to_nat (size - 1)) packet)).
  set (b := byte_at packet (Z.to_nat (size - 1))).
  change (xor_bytes [b]) with (Z.lxor 0 b). rewrite Z.lxor_0_l.
  destruct (Z.eqb_spec a b) as [->|Hne].
  - rewrite Z.lxor_nilpotent. reflexivity.
  - symmetry. apply Z.eqb_neq. intro Hz. apply Hne. apply Z.lxor_eq. exact Hz.
Qed.

(** X1. A candidate packet of [size] bytes passes [validateChecksum]
    exactly when the XOR of all its [size] bytes, checksum byte included,
    is zero. *)
Theorem checksum_ok_iff_xor_zero (packet : list uint8) (size : Z) :
  0 < size ->
  size <= Z.of_nat (length packet) ->
  (validateChecksum packet size = Some true
   <-> xor_bytes (firstn (Z.to_nat size) packet) = 0) /\
  (validateChecksum packet size = Some false
   <-> xor_bytes (firstn (Z.to_nat size) packet) <> 0).
Proof.
  intros Hpos Hlen. rewrite (validateChecksum_xor packet size Hpos Hlen).
  destruct (Z.eqb_spec (xor_bytes (firstn (Z.to_nat size) packet)) 0) as [Hz|Hnz].
  - split; split; intro H; try reflexivity; try exact Hz;
      try discriminate; contradiction.
  - split; split; intro H; try reflexivity; try exact Hnz;
      try discriminate; contradiction.
Qed.

Lemma checksum_ok_iff_xor_zero_witness :
  validateChecksum [0xA0; 0x5A; 0x00; 0x0A; 0x00; 0x14; 0xE4] 7 = Some true.
Proof.
  apply (proj1 (checksum_ok_iff_xor_zero
                  [0xA0; 0x5A; 0x00; 0x0A; 0x00; 0x14; 0xE4] 7
                  ltac:(lia) ltac:(cbn; lia))).
  reflexivity.
Defined.

Lemma split_at (l : list uint8) (i : nat) :
  (i < length l)%nat -> l = firstn i l ++ byte_at l i :: skipn (S i) l.
Proof.
  revert i. induction l as [|x l IH]; intros i Hi; [cbn in Hi; lia|].
  destruct i as [|i]; [reflexivity|].
  cbn [firstn skipn app byte_at nth]. f_equal. apply IH. cbn in Hi. lia.
Qed.

Lemma corrupt_at_length (i : nat) (x : uint8) (pkt : list uint8) :
  (i < length pkt)%nat -> length (corrupt_at i x pkt) = length pkt.
Proof.
  intro Hi. unfold corrupt_at.
  rewrite length_app, length_firstn. cbn [length]. rewrite length_skipn. lia.
Qed.

(** Replacing one byte of a packet by a different value changes the XOR
    of the packet. *)
Lemma xor_bytes_corrupt (i : nat) (x : uint8) (pkt : list uint8) :
  (i < length pkt)%nat -> x <> byte_at pkt i ->
  xor_bytes pkt = 0 -> xor_bytes (corrupt_at i x pkt) <> 0.
Proof.
  intros Hi Hx Hz Hz'. unfold corrupt_at in Hz'.
  rewrite (split_at pkt i Hi) in Hz.
  rewrite xor_bytes_app, xor_bytes_cons in Hz, Hz'.
  apply Hx.
  set (a := xor_bytes (firstn i pkt)) in *.
  set (c := xor_bytes (skipn (S i) pkt)) in *.
  apply Z.lxor_eq in Hz, Hz'.
  assert (Hxc : Z.lxor x c = Z.lxor (byte_at pkt i) c) by congruence.
  apply (f_equal (fun v => Z.lxor v c)) in Hxc.
  rewrite !Z.lxor_assoc, Z.lxor_nilpotent, !Z.lxor_0_r in Hxc. exact Hxc.
Qed.

Lemma validateChecksum_corrupt (i : nat) (x : uint8) (pkt : list uint8) (size : Z) :
  0 < size -> Z.of_nat (length pkt) = size ->
  (i < length pkt)%nat -> x <> byte_at pkt i ->
  validateChecksum pkt size = Some true ->
  validateChecksum (corrupt_at i x pkt) size = Some false.
Proof.
  intros Hpos Hlen Hi Hx Hok.
  rewrite validateChecksum_xor in Hok by lia.
  rewrite validateChecksum_xor by (rewrite ?corrupt_at_length; lia).
  injection Hok as Hok. apply Z.eqb_eq in Hok.
  rewrite firstn_all2 in Hok by lia.
  rewrite firstn_all2 by (rewrite corrupt_at_length; lia).
  f_equal. apply Z.eqb_neq. exact (xor_bytes_corrupt i x pkt Hi Hx Hok).
Qed.

(** X2. With the checksum enabled, a well-framed packet in which any one
    byte (sync, payload or checksum byte) was replaced by a different
    value is never returned: received alone into an empty buffer it
    yields no packet. *)
Theorem corrupted_packet_is_rejected (p : ProtocolParser) (pkt : list uint8)
        (i : nat) (x : uint8) :
  valid_config p ->
  useChecksum p = true ->
  buffer p = [] ->
  well_framed p pkt ->
  (i < length pkt)%nat ->
  x <> byte_at pkt i ->
  validateChecksum (corrupt_at i x pkt) (getPacketSize p) = Some false /\
  exists left,
    parse p (corrupt_at i x pkt) = Some (set_buffer p left, []).
Proof.
  intros Hv Hck Hempty (Hlen & _ & _ & Hsum) Hi Hx.
  pose proof (valid_config_packetSize p Hv) as Hs.
  assert (Hbad : validateChecksum (corrupt_at i x pkt) (getPacketSize p) = Some false)
    by (apply validateChecksum_corrupt; try assumption; lia).
  split; [exact Hbad|].
  set (buf := corrupt_at i x pkt) in *.
  assert (Hblen : length buf = length pkt) by (apply corrupt_at_length; exact Hi).
  unfold parse, parse_buffer. rewrite Hempty.
  rewrite append_data_small
    by (cbn [length]; fold buf; change MAX_BUFFER_SIZE with 65536; lia).
  cbn [app]. fold buf. rewrite parse_loop_S.
  assert (Hge : getPacketSize p <= Z.of_nat (length buf)) by lia.
  destruct (find_sync (syncByte1 p) (syncByte2 p)
                      (S (length buf - Z.to_nat (getPacketSize p))) buf)
    as [k| |] eqn:Hscan.
  - destruct (find_sync_Found_inv _ _ _ _ _ Hscan) as (Hk & _).
    assert (k = 0%nat) as -> by lia.
    rewrite (loop_body_found p Hv buf 0 Hge Hscan), Hck. cbn [skipn].
    rewrite Hbad.
    rewrite parse_loop_short;
      [eexists; reflexivity | exact Hv | lia |].
    pose proof (length_tl_le buf). destruct buf; cbn [tl length] in *; lia.
  - rewrite (loop_body_not_found p Hv buf Hge Hscan). eexists. reflexivity.
  - exfalso. revert Hscan. apply find_sync_safe. lia.
Qed.

Lemma corrupted_packet_is_rejected_witness :
  parse (configure new_parser 2 2 (f32_of_int 1))
        (corrupt_at 3 0x0B [0xA0; 0x5A; 0x00; 0x0A; 0x00; 0x14; 0xE4])
  = Some (set_buffer (configure new_parser 2 2 (f32_of_int 1))
                     [0x5A; 0x00; 0x0B; 0x00; 0x14; 0xE4], []).
Proof.
  destruct (proj2 (corrupted_packet_is_rejected
                     (configure new_parser 2 2 (f32_of_int 1))
                     [0xA0; 0x5A; 0x00; 0x0A; 0x00; 0x14; 0xE4] 3 0x0B
                     ltac:(unfold valid_config; cbn; lia) eq_refl eq_refl
                     ltac:(repeat split; vm_compute; reflexivity)
                     ltac:(cbn; lia) ltac:(vm_compute; discriminate)))
    as [left Hparse].
  rewrite Hparse. vm_compute in Hparse. injection Hparse as <-. reflexivity.
Defined.

(* ================================================================== *)
(** ** Aligned streams *)
(* ================================================================== *)

(** The loop reads the configuration, not the stored buffer. *)
Lemma decode_channels_set_buffer (p : ProtocolParser) (b : list uint8) (n : nat) :
  forall l, decode_channels (set_buffer p b) n l = decode_channels p n l.
Proof.
  induction n as [|n IH]; intro l; [reflexivity|].
  cbn [decode_channels]. rewrite IH. reflexivity.
Qed.

Lemma loop_body_set_buffer (p : ProtocolParser) (b buf : list uint8) :
  loop_body (set_buffer p b) buf = loop_body p buf.
Proof.
  unfold loop_body.
  change (getPacketSize (set_buffer p b)) with (getPacketSize p).
  change (syncByte1 (set_buffer p b)) with (syncByte1 p).
  change (syncByte2 (set_buffer p b)) with (syncByte2 p).
  change (useChecksum (set_buffer p b)) with (useChecksum p).
  change (numChannels (set_buffer p b)) with (numChannels p).
  destruct (Z.of_nat (length buf) <? _); [reflexivity|].
  destruct (find_sync _ _ _ buf) as [i| |]; try reflexivity.
  unfold decode_packet.
  change (numChannels (set_buffer p b)) with (numChannels p).
  rewrite decode_channels_set_buffer. reflexivity.
Qed.

Lemma parse_loop_set_buffer (fuel : nat) (p : ProtocolParser) (b buf : list uint8)
      (acc : list DataPacket) :
  parse_loop fuel (set_buffer p b) buf acc = parse_loop fuel p buf acc.
Proof.
  revert buf acc. induction fuel as [|fuel IH]; intros buf acc; [reflexivity|].
  rewrite !parse_loop_S, loop_body_set_buffer.
  destruct (loop_body p buf); try reflexivity; apply IH.
Qed.

Section Aligned.

Variable p : ProtocolParser.
Hypothesis Hvalid : valid_config p.

(** The loop on whole packets followed by less than one packet: every
    packet is decoded, the rest stays. *)
Lemma parse_loop_aligned (ps : list (list uint8)) :
  forall (tail : list uint8) (fuel : nat) (acc : list DataPacket),
    Forall (well_framed p) ps ->
    Z.of_nat (length tail) < getPacketSize p ->
    (length (concat ps ++ tail) < fuel)%nat ->
    parse_loop fuel p (concat ps ++ tail) acc
    = Done (acc ++ map (decode_packet p) ps) tail.
Proof.
  induction ps as [|q ps IH]; intros tail fuel acc Hall Htail Hfuel.
  - cbn [concat app map]. rewrite app_nil_r.
    apply parse_loop_short; [exact Hvalid | lia | exact Htail].
  - apply Forall_cons_iff in Hall. destruct Hall as [Hq Hall].
    destruct fuel as [|fuel]; [lia|].
    cbn [concat map]. rewrite <- app_assoc.
    rewrite parse_loop_S, (loop_body_well_framed p Hvalid q _ Hq).
    rewrite IH; try assumption.
    + rewrite <- app_assoc. reflexivity.
    + cbn [concat] in Hfuel. rewrite <- app_assoc, length_app in Hfuel.
      destruct Hq as (Hlen & _).
      pose proof (valid_config_packetSize p Hvalid). lia.
Qed.

(** A prefix of a run of packets is some whole packets and the beginning
    of the next one. *)
Lemma aligned_split (qs : list (list uint8)) :
  forall l r : list uint8,
    Forall (well_framed p) qs ->
    l ++ r = concat qs ->
    exists ps t qs',
      qs = ps ++ qs' /\ l = concat ps ++ t /\
      Z.of_nat (length t) < getPacketSize p /\ t ++ r = concat qs'.
Proof.
  pose proof (valid_config_packetSize p Hvalid) as Hs.
  induction qs as [|q qs IH]; intros l r Hall Heq.
  - cbn in Heq. apply app_eq_nil in Heq. destruct Heq as [-> ->].
    exists [], [], []. repeat split; cbn; lia.
  - apply Forall_cons_iff in Hall. destruct Hall as [Hq Hall].
    pose proof Hq as (Hlen & _).
    destruct (Z.lt_ge_cases (Z.of_nat (length l)) (getPacketSize p)) as [Hlt|Hge].
    + exists [], l, (q :: qs). repeat split; try assumption. 
    + cbn [concat] in Heq.
      assert (Hl : l = q ++ skipn (length q) l).
      { rewrite <- (firstn_skipn (length q) l) at 1. f_equal.
        apply (f_equal (firstn (length q))) in Heq.
        rewrite firstn_app in Heq.
        replace (length q - length l)%nat with 0%nat in Heq by lia.
        cbn [firstn] in Heq. rewrite app_nil_r in Heq.
        rewrite Heq, firstn_app, Nat.sub_diag, firstn_all. cbn [firstn].
        apply app_nil_r. }
      rewrite Hl, <- app_assoc in Heq. apply app_inv_head in Heq.
      destruct (IH _ _ Hall Heq) as (ps & t & qs' & -> & Hl1 & Ht & Hrest).
      exists (q :: ps), t, qs'. repeat split; try assumption.
      cbn [concat]. rewrite <- app_assoc, <- Hl1. exact Hl.
Qed.

Lemma parse_chunks_aligned (chunks : list (list uint8)) :
  forall (tail : list uint8) (qs : list (list uint8)),
    Forall (well_framed p) qs ->
    Z.of_nat (length tail) < getPacketSize p ->
    tail ++ concat chunks = concat qs ->
    Forall (fun c => Z.of_nat (length c) + getPacketSize p <= MAX_BUFFER_SIZE)
           chunks ->
    parse_chunks (set_buffer p tail) chunks
    = Some (set_buffer p [], map (decode_packet p) qs).
Proof.
  pose proof (valid_config_packetSize p Hvalid) as Hs.
  induction chunks as [|c chunks IH]; intros tail qs Hall Htail Heq Hsz.
  - cbn [concat] in Heq. rewrite app_nil_r in Heq. cbn [parse_chunks].
    destruct qs as [|q qs].
    + cbn in Heq. subst tail. reflexivity.
    + exfalso. apply Forall_cons_iff in Hall. destruct Hall as [(Hlen & _) _].
      apply (f_equal (@length _)) in Heq. cbn [concat] in Heq.
      rewrite length_app in Heq. lia.
  - apply Forall_cons_iff in Hsz. destruct Hsz as [Hc Hsz].
    cbn [concat] in Heq. rewrite app_assoc in Heq.
    destruct (aligned_split qs _ _ Hall Heq) as (ps & t & qs' & -> & Hl & Ht & Hrest).
    apply Forall_app in Hall. destruct Hall as [Hps Hqs'].
    cbn [parse_chunks]. unfold parse, parse_buffer.
    cbn [set_buffer buffer].
    rewrite append_data_small
      by (change MAX_BUFFER_SIZE with 65536 in *; rewrite Nat2Z.inj_add; lia).
    rewrite parse_loop_set_buffer, Hl.
    rewrite (parse_loop_aligned ps t _ [] Hps Ht) by lia.
    cbn [app].
    change (set_buffer (set_buffer p tail) t) with (set_buffer p t).
    rewrite (IH t qs' Hqs' Ht Hrest Hsz). rewrite map_app. reflexivity.
Qed.

End Aligned.

(** X3. For an aligned stream the parser does not depend on how the bytes
    arrive: after [reset], a stream that is a run of well-framed packets,
    cut into chunks in any way (each chunk leaving room for one packet
    below the buffer cap), yields the decoding of every packet, in order,
    and leaves the buffer empty. *)
Theorem aligned_stream_any_chunking (p : ProtocolParser)
        (pkts chunks : list (list uint8)) :
  valid_config p ->
  Forall (well_framed p) pkts ->
  concat chunks = concat pkts ->
  Forall (fun c => Z.of_nat (length c) + getPacketSize p <= MAX_BUFFER_SIZE)
         chunks ->
  parse_chunks (reset p) chunks
  = Some (reset p, map (decode_packet p) pkts).
Proof.
  intros Hv Hall Heq Hsz.
  pose proof (valid_config_packetSize p Hv) as Hs.
  exact (parse_chunks_aligned p Hv chunks [] pkts Hall ltac:(cbn; lia) Heq Hsz).
Qed.

Lemma aligned_stream_any_chunking_witness :
  parse_chunks (reset (configure new_parser 2 2 (f32_of_int 1)))
    (bytewise ([0xA0; 0x5A; 0x00; 0x0A; 0x00; 0x14; 0xE4]
                 ++ [0xA0; 0x5A; 0x00; 0x01; 0x00; 0x02; 0xF9]))
  = Some (reset (configure new_parser 2 2 (f32_of_int 1)),
          [mkDataPacket [f32_of_int 10; f32_of_int 20] 0 true;
           mkDataPacket [f32_of_int 1; f32_of_int 2] 0 true]).
Proof.
  refine (aligned_stream_any_chunking
            (configure new_parser 2 2 (f32_of_int 1))
            [[0xA0; 0x5A; 0x00; 0x0A; 0x00; 0x14; 0xE4];
             [0xA0; 0x5A; 0x00; 0x01; 0x00; 0x02; 0xF9]]
            (bytewise ([0xA0; 0x5A; 0x00; 0x0A; 0x00; 0x14; 0xE4]
                         ++ [0xA0; 0x5A; 0x00; 0x01; 0x00; 0x02; 0xF9]))
            _ _ _ _).
  - unfold valid_config. cbn. lia.
  - repeat constructor; vm_compute; reflexivity.
  - reflexivity.
  - repeat constructor; vm_compute; discriminate.
Defined.

(* ================================================================== *)
(** ** What a call returns *)
(* ================================================================== *)

Lemma decode_channels_length (p : ProtocolParser) (n : nat) :
  forall l, length (decode_channels p n l) = n.
Proof.
  induction n as [|n IH]; intro l; [reflexivity|].
  cbn [decode_channels length]. rewrite IH. reflexivity.
Qed.

Lemma loop_body_emit_decoded (p : ProtocolParser) (buf : list uint8)
      (pkt : DataPacket) (buf' : list uint8) :
  loop_body p buf = Emit pkt buf' ->
  exists syncPos, pkt = decode_packet p (skipn syncPos buf).
Proof.
  unfold loop_body. intro H.
  destruct (Z.of_nat (length buf) <? _); [discriminate|].
  destruct (find_sync _ _ _ buf) as [i| |]; try discriminate.
  destruct (Z.of_nat (length (skipn i buf)) <? _); [discriminate|].
  destruct (if useChecksum p then _ else _) as [[|]|]; try discriminate.
  destruct (numChannels p <? 0); [discriminate|].
  injection H as <- _. exists i. reflexivity.
Qed.

Lemma parse_loop_shape (fuel : nat) (p : ProtocolParser) :
  forall (buf : list uint8) (acc packets : list DataPacket) (buf' : list uint8),
    parse_loop fuel p buf acc = Done packets buf' ->
    Forall (packet_shape p) acc ->
    Forall (packet_shape p) packets.
Proof.
  induction fuel as [|fuel IH]; intros buf acc packets buf' H Hacc; [discriminate|].
  rewrite parse_loop_S in H. destruct (loop_body p buf) as [b|b|pkt b|] eqn:Hb.
  - injection H as <- _. exact Hacc.
  - exact (IH _ _ _ _ H Hacc).
  - apply (IH _ _ _ _ H). apply Forall_app. split; [exact Hacc|].
    constructor; [|constructor].
    destruct (loop_body_emit_decoded _ _ _ _ Hb) as [i ->].
    unfold packet_shape, decode_packet. cbn [samples valid timestamp].
    rewrite decode_channels_length. repeat split.
  - discriminate.
Qed.

(** X4. Whatever the configuration and the input, a [parse] call that
    returns leaves the configuration as it was, and every packet it returns
    has exactly [numChannels] samples, the valid flag set and the hardware
    timestamp 0. *)
Theorem parse_returns_shaped_packets (p : ProtocolParser) (data : list uint8)
        (p' : ProtocolParser) (packets : list DataPacket) :
  parse p data = Some (p', packets) ->
  (numChannels p' = numChannels p /\ bytesPerSample p' = bytesPerSample p /\
   scaleFactor p' = scaleFactor p /\ syncByte1 p' = syncByte1 p /\
   syncByte2 p' = syncByte2 p /\ useChecksum p' = useChecksum p) /\
  Forall (packet_shape p) packets.
Proof.
  intro H. destruct (parse_inv _ _ _ _ H) as (b & Hrun & ->).
  split; [repeat split|].
  unfold parse_buffer in Hrun.
  exact (parse_loop_shape _ _ _ _ _ _ Hrun (Forall_nil _)).
Qed.

Lemma parse_returns_shaped_packets_witness :
  Forall (packet_shape (configure new_parser 2 2 (f32_of_int 1)))
         [mkDataPacket [f32_of_int 10; f32_of_int 20] 0 true].
Proof.
  refine (proj2 (parse_returns_shaped_packets
                   (configure new_parser 2 2 (f32_of_int 1))
                   [0xA0; 0x5A; 0x00; 0x0A; 0x00; 0x14; 0xE4]
                   (configure new_parser 2 2 (f32_of_int 1)) _ _)).
  vm_compute. reflexivity.
Defined.

(** X5. For a valid configuration every [parse] call returns, fewer than
    [packetSize] bytes stay in the buffer, and the packets returned used
    [packetSize] bytes each: their number times the packet size plus the
    bytes left is at most the bytes held before plus the bytes received. *)
Theorem parse_accounts_for_bytes (p : ProtocolParser) (data : list uint8) :
  valid_config p ->
  exists packets left,
    parse p data = Some (set_buffer p left, packets) /\
    Z.of_nat (length left) < getPacketSize p /\
    Z.of_nat (length packets) * getPacketSize p + Z.of_nat (length left)
    <= Z.of_nat (length (append_data (buffer p) data)) /\
    Z.of_nat (length (append_data (buffer p) data))
    <= Z.of_nat (length (buffer p)) + Z.of_nat (length data).
Proof.
  intro Hv.
  destruct (parse_total p Hv data) as (pk & b & Hparse & _ & Hleft & Hcount).
  exists pk, b. repeat split; try assumption.
  clear. revert p. intro p. generalize (buffer p) as buf.
  induction data as [|x data IH]; intro buf; [cbn; lia|].
  cbn [append_data fold_left length]. fold (append_data (push_capped buf x) data).
  specialize (IH (push_capped buf x)).
  assert (Hpush : (length (push_capped buf x) <= S (length buf))%nat).
  { unfold push_capped. destruct (MAX_BUFFER_SIZE <? _).
    - pose proof (length_tl_le (buf ++ [x])) as Htl.
      rewrite length_app in Htl. cbn [length] in Htl. lia.
    - rewrite length_app. cbn [length]. lia. }
  lia.
Qed.

Lemma parse_accounts_for_bytes_witness :
  exists packets left,
    parse (configure new_parser 2 2 (f32_of_int 1))
          [0xA0; 0x5A; 0x00; 0x0A; 0x00; 0x14; 0xE4; 0xA0; 0x5A; 0x00]
    = Some (set_buffer (configure new_parser 2 2 (f32_of_int 1)) left, packets) /\
    Z.of_nat (length left) < 7.
Proof.
  destruct (parse_accounts_for_bytes
              (configure new_parser 2 2 (f32_of_int 1))
              [0xA0; 0x5A; 0x00; 0x0A; 0x00; 0x14; 0xE4; 0xA0; 0x5A; 0x00]
              ltac:(unfold valid_config; cbn; lia))
    as (packets & left & Hparse & Hleft & _).
  exists packets, left. split; [exact Hparse | exact Hleft].
Defined.

(* ================================================================== *)
(** ** Where the returned packets come from *)
(* ================================================================== *)

Lemma spaced_weaken (gap lo lo' : nat) (ks : list nat) :
  (lo' <= lo)%nat -> spaced gap lo ks -> spaced gap lo' ks.
Proof.
  intros Hle H. destruct ks as [|k ks]; [exact I|].
  destruct H as [Hk Hrest]. split; [lia | exact Hrest].
Qed.

Lemma spaced_shift (gap j : nat) (ks : list nat) :
  forall lo, spaced gap lo ks -> spaced gap (lo + j) (map (fun k => k + j)%nat ks).
Proof.
  induction ks as [|k ks IH]; intros lo H; [exact I|].
  destruct H as [Hk Hrest]. cbn [map spaced]. split; [lia|].
  replace (k + j + gap)%nat with (k + gap + j)%nat by lia.
  apply IH. exact Hrest.
Qed.

Lemma checked_window_skipn (p : ProtocolParser) (buf : list uint8) (j k : nat) :
  (j <= length buf)%nat ->
  checked_window p (skipn j buf) k -> checked_window p buf (k + j).
Proof.
  intros Hj ((Hlen & Hs1 & Hs2) & Hfit & Hsum).
  rewrite length_skipn in Hlen, Hfit. rewrite byte_at_skipn in Hs1, Hs2.
  rewrite skipn_skipn in Hsum.
  unfold checked_window, sync_at.
  replace (k + j)%nat with (j + k)%nat at 2 by lia.
  replace (S (k + j)) with (j + S k)%nat by lia.
  repeat split; try assumption; lia.
Qed.

Section Windows.

Variable p : ProtocolParser.
Hypothesis Hvalid : valid_config p.
Hypothesis Hck : useChecksum p = true.

(** What one turn does to the buffer, by the offset it cuts at *)
Lemma loop_body_cut (buf : list uint8) :
  match loop_body p buf with
  | Exit _ => True
  | Retry buf' => exists j, (0 < j <= length buf)%nat /\ buf' = skipn j buf
  | Emit pkt buf' =>
      exists i, checked_window p buf i /\
                pkt = decode_packet p (skipn i buf) /\
                buf' = skipn (i + Z.to_nat (getPacketSize p)) buf
  | Fault => False
  end.
Proof.
  pose proof (valid_config_packetSize p Hvalid) as Hs.
  destruct (Z.lt_ge_cases (Z.of_nat (length buf)) (getPacketSize p)) as [Hlt|Hge].
  { rewrite (loop_body_short p Hvalid buf Hlt). exact I. }
  destruct (find_sync (syncByte1 p) (syncByte2 p)
                      (S (length buf - Z.to_nat (getPacketSize p))) buf)
    as [i| |] eqn:Hscan.
  - destruct (find_sync_Found_inv _ _ _ _ _ Hscan) as (Hi & Hi2 & [Hh1 Hh2] & _).
    rewrite (loop_body_found p Hvalid buf i Hge Hscan), Hck.
    rewrite validateChecksum_pos by lia.
    destruct (_ =? _) eqn:Hsum.
    + exists i. split; [|split; [reflexivity|]].
      * unfold checked_window, sync_at. repeat split; try assumption; try lia.
        rewrite validateChecksum_pos by lia. rewrite Hsum. reflexivity.
      * rewrite skipn_skipn. f_equal. lia.
    + exists (S i). split; [lia|]. apply tl_skipn.
  - rewrite (loop_body_not_found p Hvalid buf Hge Hscan). exact I.
  - exfalso. revert Hscan. apply find_sync_safe. lia.
Qed.

Lemma parse_loop_windows (fuel : nat) :
  forall (buf : list uint8) (acc packets : list DataPacket) (buf' : list uint8),
    parse_loop fuel p buf acc = Done packets buf' ->
    exists ks,
      packets = acc ++ map (fun k => decode_packet p (skipn k buf)) ks /\
      spaced (Z.to_nat (getPacketSize p)) 0 ks /\
      Forall (checked_window p buf) ks.
Proof.
  induction fuel as [|fuel IH]; intros buf acc packets buf' H; [discriminate|].
  rewrite parse_loop_S in H. pose proof (loop_body_cut buf) as Hcut.
  destruct (loop_body p buf) as [b|b|pkt b|].
  - injection H as <- _. exists []. cbn. rewrite app_nil_r. repeat split.
    constructor.
  - destruct Hcut as (j & Hj & ->).
    destruct (IH _ _ _ _ H) as (ks & Hpk & Hsp & Hall).
    exists (map (fun k => k + j)%nat ks). split; [|split].
    + rewrite Hpk, map_map. f_equal. apply map_ext. intro k.
      rewrite skipn_skipn. reflexivity.
    + apply (spaced_weaken _ (0 + j) 0); [lia|]. apply spaced_shift. exact Hsp.
    + apply Forall_map. revert Hall. apply Forall_impl. intros k Hk.
      apply checked_window_skipn; [lia | exact Hk].
  - destruct Hcut as (i & Hwin & -> & ->).
    destruct (IH _ _ _ _ H) as (ks & Hpk & Hsp & Hall).
    pose proof Hwin as (_ & Hfit & _).
    exists (i :: map (fun k => k + (i + Z.to_nat (getPacketSize p)))%nat ks).
    split; [|split].
    + rewrite Hpk, <- app_assoc. cbn [app map]. do 2 f_equal.
      rewrite map_map. apply map_ext. intro k. rewrite skipn_skipn. reflexivity.
    + cbn [spaced]. split; [lia|].
      apply (spaced_shift _ (i + Z.to_nat (getPacketSize p)) ks 0%nat Hsp).
    + constructor; [exact Hwin|]. apply Forall_map. revert Hall.
      apply Forall_impl. intros k Hk. apply checked_window_skipn; [lia | exact Hk].
  - contradiction.
Qed.

End Windows.

(** X6. With the checksum enabled, [parse] never returns a packet that the
    bytes do not contain: every returned packet is the decoding of a window
    of the buffer (old bytes followed by the new ones, after the cap) that
    starts with the two sync bytes, lies inside the buffer and passes the
    checksum; the windows come in stream order and do not overlap. *)
Theorem parsed_packets_are_checked_windows (p : ProtocolParser)
        (data : list uint8) (p' : ProtocolParser) (packets : list DataPacket) :
  valid_config p ->
  useChecksum p = true ->
  parse p data = Some (p', packets) ->
  exists offsets,
    packets = map (fun k => decode_packet p (skipn k (append_data (buffer p) data)))
                  offsets /\
    spaced (Z.to_nat (getPacketSize p)) 0 offsets /\
    Forall (checked_window p (append_data (buffer p) data)) offsets.
Proof.
  intros Hv Hck H. destruct (parse_inv _ _ _ _ H) as (b & Hrun & _).
  unfold parse_buffer in Hrun.
  exact (parse_loop_windows p Hv Hck _ _ _ _ _ Hrun).
Qed.

Lemma parsed_packets_are_checked_windows_witness :
  exists offsets,
    [mkDataPacket [f32_of_int 1; f32_of_int 2] 0 true]
    = map (fun k => decode_packet (configure new_parser 2 2 (f32_of_int 1))
                      (skipn k [0x37; 0xA0; 0x5A; 0xA0; 0x5A; 0x00; 0x01; 0x00;
                                0x02; 0xF9; 0x11]))
          offsets /\
    spaced 7 0 offsets.
Proof.
  destruct (parsed_packets_are_checked_windows
              (configure new_parser 2 2 (f32_of_int 1))
              [0x37; 0xA0; 0x5A; 0xA0; 0x5A; 0x00; 0x01; 0x00; 0x02; 0xF9; 0x11]
              (set_buffer (configure new_parser 2 2 (f32_of_int 1)) [0x11])
              [mkDataPacket [f32_of_int 1; f32_of_int 2] 0 true]
              ltac:(unfold valid_config; cbn; lia) eq_refl
              ltac:(vm_compute; reflexivity))
    as (offsets & Hpk & Hsp & _).
  exists offsets. split; [exact Hpk | exact Hsp].
Defined.

(* ================================================================== *)
(** ** Streams without the sync pair *)
(* ================================================================== *)

Lemma no_sync_pair_skipn (p : ProtocolParser) (l : list uint8) (k : nat) :
  no_sync_pair p l -> no_sync_pair p (skipn k l).
Proof.
  intros Hno i (Hlen & Hs1 & Hs2). rewrite length_skipn in Hlen.
  rewrite byte_at_skipn in Hs1, Hs2.
  apply (Hno (k + i)%nat). unfold sync_at.
  replace (S (k + i)) with (k + S i)%nat by lia.
  repeat split; try assumption; lia.
Qed.

Lemma no_sync_pair_app_l (p : ProtocolParser) (l r : list uint8) :
  no_sync_pair p (l ++ r) -> no_sync_pair p l.
Proof.
  intros Hno i (Hlen & Hs1 & Hs2). apply (Hno i). unfold sync_at.
  rewrite length_app, !byte_at_app by lia.
  repeat split; try assumption; lia.
Qed.

Section NoSync.

Variable p : ProtocolParser.
Hypothesis Hvalid : valid_config p.

Lemma parse_loop_no_sync_pair (fuel : nat) (buf : list uint8) (acc : list DataPacket) :
  (0 < fuel)%nat ->
  no_sync_pair p buf ->
  exists j, (j <= length buf)%nat /\
            parse_loop fuel p buf acc = Done acc (skipn j buf).
Proof.
  intros Hfuel Hno. destruct fuel as [|fuel]; [lia|].
  pose proof (valid_config_packetSize p Hvalid) as Hs.
  rewrite parse_loop_S.
  destruct (Z.lt_ge_cases (Z.of_nat (length buf)) (getPacketSize p)) as [Hlt|Hge].
  { rewrite (loop_body_short p Hvalid buf Hlt). exists 0%nat.
    split; [lia | reflexivity]. }
  destruct (find_sync (syncByte1 p) (syncByte2 p)
                      (S (length buf - Z.to_nat (getPacketSize p))) buf)
    as [i| |] eqn:Hscan.
  - exfalso.
    destruct (find_sync_Found_inv _ _ _ _ _ Hscan) as (_ & Hi2 & [Hh1 Hh2] & _).
    apply (Hno i). repeat split; assumption.
  - rewrite (loop_body_not_found p Hvalid buf Hge Hscan).
    exists (length buf - 2)%nat. split; [lia | reflexivity].
  - exfalso. revert Hscan. apply find_sync_safe. lia.
Qed.

Lemma parse_chunks_no_sync_pair (chunks : list (list uint8)) :
  forall b : list uint8,
    Z.of_nat (length b) <= MAX_BUFFER_SIZE ->
    no_sync_pair p (b ++ concat chunks) ->
    exists left, parse_chunks (set_buffer p b) chunks = Some (set_buffer p left, []).
Proof.
  induction chunks as [|c chunks IH]; intros b Hb Hno.
  - exists b. reflexivity.
  - cbn [concat] in Hno. rewrite app_assoc in Hno.
    cbn [parse_chunks]. unfold parse, parse_buffer. cbn [set_buffer buffer].
    rewrite (append_data_suffix c b Hb).
    set (k := (length (b ++ c) - Z.to_nat MAX_BUFFER_SIZE)%nat).
    assert (Hk : (k <= length (b ++ c))%nat) by (unfold k; lia).
    assert (Hno1 : no_sync_pair p (skipn k (b ++ c))).
    { apply no_sync_pair_skipn. exact (no_sync_pair_app_l p _ _ Hno). }
    rewrite parse_loop_set_buffer.
    destruct (parse_loop_no_sync_pair (S (length (skipn k (b ++ c))))
                                      (skipn k (b ++ c)) [] ltac:(lia) Hno1)
      as (j & Hj & ->).
    rewrite skipn_skipn. rewrite length_skipn in Hj.
    change (set_buffer (set_buffer p b) (skipn (j + k) (b ++ c)))
      with (set_buffer p (skipn (j + k) (b ++ c))).
    destruct (IH (skipn (j + k) (b ++ c))) as [left Hrest].
    + rewrite length_skipn. unfold k.
      pose proof MAX_BUFFER_SIZE_pos. lia.
    + rewrite <- (skipn_app_le (b ++ c) (concat chunks) (j + k)) by lia.
      apply no_sync_pair_skipn. exact Hno.
    + exists left. rewrite Hrest. reflexivity.
Qed.

End NoSync.

(** X7. A stream in which the two sync bytes never stand next to each
    other never yields a packet, in any chunking and for any length: after
    [reset], every call returns the empty vector. *)
Theorem stream_without_sync_yields_nothing (p : ProtocolParser)
        (chunks : list (list uint8)) :
  valid_config p ->
  no_sync_pair p (concat chunks) ->
  exists left, parse_chunks (reset p) chunks = Some (set_buffer p left, []).
Proof.
  intros Hv Hno.
  apply (parse_chunks_no_sync_pair p Hv chunks []); [|exact Hno].
  cbn. pose proof MAX_BUFFER_SIZE_pos. lia.
Qed.

Lemma stream_without_sync_yields_nothing_witness :
  exists left,
    parse_chunks (reset (configure new_parser 2 2 (f32_of_int 1)))
                 [[0x5A; 0xA0; 0x01]; [0xA0; 0x02; 0x5A; 0x03; 0x04];
                  [0x05; 0x06; 0xA0]]
    = Some (set_buffer (configure new_parser 2 2 (f32_of_int 1)) left, []).
Proof.
  apply (stream_without_sync_yields_nothing
           (configure new_parser 2 2 (f32_of_int 1))
           [[0x5A; 0xA0; 0x01]; [0xA0; 0x02; 0x5A; 0x03; 0x04];
            [0x05; 0x06; 0xA0]]).
  - unfold valid_config. cbn. lia.
  - intros i (Hlen & Hs1 & Hs2).
    do 11 (destruct i as [|i];
           [first [vm_compute in Hs1; discriminate
                  | vm_compute in Hs2; discriminate]|]).
    cbn in Hlen. lia.
Defined.

(* ================================================================== *)
(** ** Decoding is one-to-one *)
(* ================================================================== *)

Lemma rawValue_of_bytes_16 (b0 b1 : uint8) :
  is_byte b0 -> is_byte b1 ->
  rawValue_of [b0; b1] 2 = Some (wrap16 (b0 * 256 + b1)).
Proof.
  unfold is_byte. intros H0 H1. cbn [rawValue_of byte_at nth].
  rewrite Z.shiftl_mul_pow2 by lia. change (2 ^ 8) with 256.
  rewrite (lor_add_low (b0 * 256) b1 8)
    by (try lia; change (2 ^ 8) with 256; try lia; Z.div_mod_to_equations; lia).
  reflexivity.
Qed.

Lemma rawValue_of_bytes_24 (b0 b1 b2 : uint8) :
  is_byte b0 -> is_byte b1 -> is_byte b2 ->
  rawValue_of [b0; b1; b2] 3
  = Some (if b0 * 65536 + b1 * 256 + b2 <? 8388608
          then b0 * 65536 + b1 * 256 + b2
          else b0 * 65536 + b1 * 256 + b2 - 16777216).
Proof.
  unfold is_byte. intros H0 H1 H2. cbn [rawValue_of byte_at nth].
  rewrite !Z.shiftl_mul_pow2 by lia.
  change (2 ^ 16) with 65536. change (2 ^ 8) with 256.
  rewrite (lor_add_low (b0 * 65536) (b1 * 256) 16)
    by (try lia; change (2 ^ 16) with 65536; try lia; Z.div_mod_to_equations; lia).
  rewrite (lor_add_low (b0 * 65536 + b1 * 256) b2 8)
    by (try lia; change (2 ^ 8) with 256; try lia; Z.div_mod_to_equations; lia).
  set (r := b0 * 65536 + b1 * 256 + b2).
  assert (Hr : 0 <= r < 16777216) by (unfold r; lia).
  rewrite (land_bit23 r Hr). f_equal.
  destruct (Z.ltb_spec r 8388608) as [Hlt|Hge]; [reflexivity|].
  rewrite Z.lor_comm. change 0xFF000000 with (Z.shiftl 255 24).
  rewrite lor_shiftl_add by (try lia; change (2 ^ 24) with 16777216; lia).
  change (2 ^ 24) with 16777216. unfold wrap32.
  Z.div_mod_to_equations. lia.
Qed.

Lemma rawValue_of_bytes_32 (b0 b1 b2 b3 : uint8) :
  is_byte b0 -> is_byte b1 -> is_byte b2 -> is_byte b3 ->
  rawValue_of [b0; b1; b2; b3] 4
  = Some (wrap32 (b0 * 16777216 + b1 * 65536 + b2 * 256 + b3)).
Proof.
  unfold is_byte. intros H0 H1 H2 H3. cbn [rawValue_of byte_at nth].
  rewrite !Z.shiftl_mul_pow2 by lia.
  change (2 ^ 24) with 16777216. change (2 ^ 16) with 65536.
  change (2 ^ 8) with 256.
  rewrite (lor_add_low (b0 * 16777216) (b1 * 65536) 24)
    by (try lia; change (2 ^ 24) with 16777216; try lia;
        Z.div_mod_to_equations; lia).
  rewrite (lor_add_low (b0 * 16777216 + b1 * 65536) (b2 * 256) 16)
    by (try lia; change (2 ^ 16) with 65536; try lia;
        Z.div_mod_to_equations; lia).
  rewrite (lor_add_low (b0 * 16777216 + b1 * 65536 + b2 * 256) b3 8)
    by (try lia; change (2 ^ 8) with 256; try lia;
        Z.div_mod_to_equations; lia).
  reflexivity.
Qed.

(** X8. The integer decoding is one-to-one and stays in range: for a width
    of 2, 3 or 4, any [width] bytes decode to a raw value of the signed
    range of that width whose big-endian two's-complement bytes are the
    given bytes again; so two different byte patterns never decode to the
    same raw value. *)
Theorem rawValue_of_inverts_encoding (width : Z) (bytes : list uint8) :
  2 <= width <= 4 ->
  length bytes = Z.to_nat width ->
  bytes_ok bytes ->
  exists value,
    rawValue_of bytes width = Some value /\
    in_signed_range width value /\
    encode_be (Z.to_nat width) value = bytes.
Proof.
  intros Hw Hlen Hok. unfold in_signed_range.
  assert (Hcase : width = 2 \/ width = 3 \/ width = 4) by lia.
  destruct Hcase as [->|[->| ->]].
  - destruct bytes as [|b0 [|b1 [|? ?]]]; try discriminate Hlen.
    apply Forall_cons_iff in Hok. destruct Hok as [H0 Hok].
    apply Forall_cons_iff in Hok. destruct Hok as [H1 _].
    rewrite (rawValue_of_bytes_16 b0 b1 H0 H1). eexists. split; [reflexivity|].
    change (2 ^ (8 * 2 - 1)) with 32768. change (Z.to_nat 2) with 2%nat.
    rewrite encode_be_2. unfold is_byte, wrap16 in *.
    split; [Z.div_mod_to_equations; lia|].
    f_equal; [|f_equal]; Z.div_mod_to_equations; lia.
  - destruct bytes as [|b0 [|b1 [|b2 [|? ?]]]]; try discriminate Hlen.
    apply Forall_cons_iff in Hok. destruct Hok as [H0 Hok].
    apply Forall_cons_iff in Hok. destruct Hok as [H1 Hok].
    apply Forall_cons_iff in Hok. destruct Hok as [H2 _].
    rewrite (rawValue_of_bytes_24 b0 b1 b2 H0 H1 H2). eexists.
    split; [reflexivity|].
    change (2 ^ (8 * 3 - 1)) with 8388608. change (Z.to_nat 3) with 3%nat.
    rewrite encode_be_3. unfold is_byte in *.
    destruct (Z.ltb_spec (b0 * 65536 + b1 * 256 + b2) 8388608) as [Hlt|Hge].
    + split; [lia|].
      f_equal; [|f_equal; [|f_equal]]; Z.div_mod_to_equations; lia.
    + split; [lia|].
      f_equal; [|f_equal; [|f_equal]]; Z.div_mod_to_equations; lia.
  - destruct bytes as [|b0 [|b1 [|b2 [|b3 [|? ?]]]]]; try discriminate Hlen.
    apply Forall_cons_iff in Hok. destruct Hok as [H0 Hok].
    apply Forall_cons_iff in Hok. destruct Hok as [H1 Hok].
    apply Forall_cons_iff in Hok. destruct Hok as [H2 Hok].
    apply Forall_cons_iff in Hok. destruct Hok as [H3 _].
    rewrite (rawValue_of_bytes_32 b0 b1 b2 b3 H0 H1 H2 H3). eexists.
    split; [reflexivity|].
    change (2 ^ (8 * 4 - 1)) with 2147483648. change (Z.to_nat 4) with 4%nat.
    rewrite encode_be_4. unfold is_byte, wrap32 in *.
    split; [Z.div_mod_to_equations; lia|].
    f_equal; [|f_equal; [|f_equal; [|f_equal]]]; Z.div_mod_to_equations; lia.
Qed.

Lemma rawValue_of_inverts_encoding_witness :
  exists value,
    rawValue_of [0xFF; 0x80; 0x01] 3 = Some value /\
    encode_be 3 value = [0xFF; 0x80; 0x01].
Proof.
  destruct (rawValue_of_inverts_encoding 3 [0xFF; 0x80; 0x01]
              ltac:(lia) eq_refl
              ltac:(repeat constructor; unfold is_byte; lia))
    as (value & Hraw & _ & Henc).
  exists value. split; [exact Hraw | exact Henc].
Defined.

(* ================================================================== *)
(** ** From channel values to the wire and back *)
(* ================================================================== *)

Lemma lxor_is_byte (a b : Z) : is_byte a -> is_byte b -> is_byte (Z.lxor a b).
Proof.
  unfold is_byte. intros Ha Hb.
  assert (Hnn : 0 <= Z.lxor a b) by (apply Z.lxor_nonneg; lia).
  split; [exact Hnn|].
  destruct (Z.eq_dec (Z.lxor a b) 0) as [->|Hnz]; [lia|].
  change 256 with (2 ^ 8) in *.
  apply (proj2 (Z.log2_lt_pow2 (Z.lxor a b) 8 ltac:(lia))).
  apply Z.le_lt_trans with (Z.max (Z.log2 a) (Z.log2 b));
    [apply Z.log2_lxor; lia|].
  apply Z.max_lub_lt.
  - destruct (Z.eq_dec a 0) as [->|Hane]; [cbn; lia|].
    apply (proj1 (Z.log2_lt_pow2 a 8 ltac:(lia))). lia.
  - destruct (Z.eq_dec b 0) as [->|Hbne]; [cbn; lia|].
    apply (proj1 (Z.log2_lt_pow2 b 8 ltac:(lia))). lia.
Qed.

Lemma xor_bytes_is_byte (l : list uint8) : bytes_ok l -> is_byte (xor_bytes l).
Proof.
  induction l as [|x l IH]; intro Hok.
  - unfold is_byte. cbn. lia.
  - apply Forall_cons_iff in Hok. destruct Hok as [Hx Hl].
    rewrite xor_bytes_cons. apply lxor_is_byte; [exact Hx | exact (IH Hl)].
Qed.

Lemma bytesToSample_encode (p : ProtocolParser) (width value : Z) :
  2 <= width <= 4 ->
  in_signed_range width value ->
  bytesToSample p (encode_be (Z.to_nat width) value) width
  = f32_mul (f32_of_int value) (scaleFactor p).
Proof.
  intros Hw Hr. unfold bytesToSample, in_signed_range in *.
  assert (Hcase : width = 2 \/ width = 3 \/ width = 4) by lia.
  destruct Hcase as [->|[->| ->]].
  - rewrite rawValue_of_16; [reflexivity|].
    change (2 ^ (8 * 2 - 1)) with 32768 in Hr. lia.
  - rewrite rawValue_of_24; [reflexivity|].
    change (2 ^ (8 * 3 - 1)) with 8388608 in Hr. lia.
  - rewrite rawValue_of_32; [reflexivity|].
    change (2 ^ (8 * 4 - 1)) with 2147483648 in Hr. lia.
Qed.

Section Frame.

Variable p : ProtocolParser.
Hypothesis Hvalid : valid_config p.

Let w : nat := Z.to_nat (bytesPerSample p).

Lemma payload_length (values : list Z) :
  length (concat (map (encode_be w) values)) = (length values * w)%nat.
Proof.
  induction values as [|v values IH]; [reflexivity|].
  cbn [map concat length]. rewrite length_app, encode_be_length, IH. lia.
Qed.

Lemma payload_bytes_ok (values : list Z) :
  bytes_ok (concat (map (encode_be w) values)).
Proof.
  induction values as [|v values IH]; [constructor|].
  cbn [map concat]. apply Forall_app. split; [apply encode_be_bytes_ok | exact IH].
Qed.

Lemma decode_channels_payload (values : list Z) :
  forall rest : list uint8,
    Forall (in_signed_range (bytesPerSample p)) values ->
    decode_channels p (length values)
                    (concat (map (encode_be w) values) ++ rest)
    = map (fun v => f32_mul (f32_of_int v) (scaleFactor p)) values.
Proof.
  destruct Hvalid as [_ Hb].
  induction values as [|v values IH]; intros rest Hall; [reflexivity|].
  apply Forall_cons_iff in Hall. destruct Hall as [Hv Hall].
  cbn [map concat length decode_channels]. rewrite <- app_assoc. fold w.
  rewrite bytesToSample_app
    by (try exact Hb; rewrite encode_be_length; unfold w; lia).
  unfold w at 1. rewrite (bytesToSample_encode p _ v Hb Hv). f_equal.
  rewrite skipn_app_exact by (rewrite encode_be_length; reflexivity).
  apply IH. exact Hall.
Qed.

Lemma frame_packet_well_framed (values : list Z) :
  useChecksum p = true ->
  Z.of_nat (length values) = numChannels p ->
  well_framed p (frame_packet p values).
Proof.
  intros Hck Hn. destruct Hvalid as [Hc Hb].
  unfold well_framed, frame_packet. rewrite Hck. fold w.
  set (body := syncByte1 p :: syncByte2 p :: concat (map (encode_be w) values)).
  assert (Hblen : Z.of_nat (length body) = 2 + numChannels p * bytesPerSample p).
  { unfold body. cbn [length]. rewrite payload_length. unfold w. nia. }
  assert (Hsize : getPacketSize p = Z.of_nat (length body) + 1).
  { unfold getPacketSize. rewrite Hck. lia. }
  split; [rewrite length_app; cbn [length]; lia|].
  split; [reflexivity|]. split; [reflexivity|].
  rewrite validateChecksum_pos by lia.
  replace (Z.to_nat (getPacketSize p - 1)) with (length body) by lia.
  rewrite firstn_app, firstn_all, Nat.sub_diag. cbn [firstn].
  rewrite app_nil_r. unfold byte_at.
  rewrite app_nth2, Nat.sub_diag by lia. cbn [nth].
  rewrite Z.eqb_refl. reflexivity.
Qed.

Lemma decode_frame_packet (values : list Z) :
  Z.of_nat (length values) = numChannels p ->
  Forall (in_signed_range (bytesPerSample p)) values ->
  decode_packet p (frame_packet p values)
  = mkDataPacket (map (fun v => f32_mul (f32_of_int v) (scaleFactor p)) values)
                 0 true.
Proof.
  intros Hn Hall. unfold decode_packet, frame_packet. f_equal.
  replace (Z.to_nat (numChannels p)) with (length values) by lia. fold w.
  destruct (useChecksum p).
  - cbn [app skipn]. apply decode_channels_payload. exact Hall.
  - cbn [skipn]. rewrite <- (app_nil_r (concat _)).
    apply decode_channels_payload. exact Hall.
Qed.

End Frame.

(** X9. From channel values to the wire and back: for a valid
    configuration with the checksum on, one value of the signed range of
    the sample width per channel, framed as the documented wire format
    (sync bytes, big-endian samples, XOR of all bytes before), is a
    well-framed packet of byte values, and a reset parser that receives it
    returns exactly one packet whose samples are the [float] products
    [value * scaleFactor], channel by channel, and keeps nothing. *)
Theorem framed_values_round_trip (p : ProtocolParser) (values : list Z) :
  valid_config p ->
  useChecksum p = true ->
  Z.of_nat (length values) = numChannels p ->
  Forall (in_signed_range (bytesPerSample p)) values ->
  well_framed p (frame_packet p values) /\
  (is_byte (syncByte1 p) -> is_byte (syncByte2 p) ->
   bytes_ok (frame_packet p values)) /\
  parse (reset p) (frame_packet p values)
  = Some (reset p,
          [mkDataPacket
             (map (fun v => f32_mul (f32_of_int v) (scaleFactor p)) values)
             0 true]).
Proof.
  intros Hv Hck Hn Hall.
  pose proof (valid_config_packetSize p Hv) as Hs.
  pose proof (frame_packet_well_framed p Hv values Hck Hn) as Hwf.
  split; [exact Hwf|]. split.
  - intros H1 H2. unfold frame_packet. rewrite Hck.
    assert (Hbody : bytes_ok (syncByte1 p :: syncByte2 p
                              :: concat (map (encode_be (Z.to_nat (bytesPerSample p)))
                                             values))).
    { constructor; [exact H1|]. constructor; [exact H2|].
      apply payload_bytes_ok. }
    apply Forall_app. split; [exact Hbody|].
    constructor; [|constructor]. apply xor_bytes_is_byte. exact Hbody.
  - pose proof Hwf as (Hlen & _).
    unfold parse, parse_buffer. change (buffer (reset p)) with (@nil uint8).
    rewrite append_data_small
      by (cbn [length]; change MAX_BUFFER_SIZE with 65536; lia).
    cbn [app]. unfold reset. rewrite parse_loop_set_buffer.
    pose proof (parse_loop_aligned p Hv [frame_packet p values] []
                  (S (length (frame_packet p values))) []
                  ltac:(constructor; [exact Hwf | constructor])
                  ltac:(cbn; lia)
                  ltac:(cbn [concat]; rewrite !app_nil_r; lia)) as Hrun.
    cbn [concat map app] in Hrun. rewrite !app_nil_r in Hrun. rewrite Hrun.
    rewrite (decode_frame_packet p Hv values Hn Hall). reflexivity.
Qed.

Lemma framed_values_round_trip_witness :
  parse (reset (configure new_parser 2 3 (f32_of_int 1)))
        (frame_packet (configure new_parser 2 3 (f32_of_int 1)) [-8388608; 5])
  = Some (reset (configure new_parser 2 3 (f32_of_int 1)),
          [mkDataPacket [f32_of_int (-8388608); f32_of_int 5] 0 true]).
Proof.
  refine (proj2 (proj2 (framed_values_round_trip
                          (configure new_parser 2 3 (f32_of_int 1))
                          [-8388608; 5] _ eq_refl eq_refl _))).
  - unfold valid_config. cbn. lia.
  - repeat constructor; unfold in_signed_range; cbn; lia.
Defined.

(* ================================================================== *)
(** ** From [float] to [double] *)
(* ================================================================== *)

Lemma digits2_pos_iter_xO (k m : positive) :
  digits2_pos (Pos.iter xO m k) = (digits2_pos m + k)%positive.
Proof.
  induction k as [|k IH] using Pos.peano_ind.
  - cbn. rewrite Pos.add_1_r. reflexivity.
  - rewrite Pos.iter_succ. cbn [digits2_pos]. rewrite IH.
    rewrite Pos.add_succ_r. reflexivity.
Qed.

(** Every positive finite [float] is promoted to a positive finite
    [double]. *)
Lemma f64_of_f32_positive_finite (m : positive) (e : Z) :
  valid_binary 24 128 (S754_finite false m e) = true ->
  positive_finite (f64_of_f32 (S754_finite false m e)).
Proof.
  intro Hvalid. cbn [valid_binary] in Hvalid. unfold bounded in Hvalid.
  apply andb_prop in Hvalid. destruct Hvalid as [Hcan Hmax].
  unfold canonical_mantissa, fexp, emin in Hcan.
  apply Z.eqb_eq in Hcan. apply Z.leb_le in Hmax.
  unfold f64_of_f32, cond_Zopp, binary_normalize, binary_round.
  set (d := Z.pos (digits2_pos m)) in *.
  assert (Hd : 1 <= d) by (unfold d; lia).
  assert (Hfexp : fexp 53 1024 (d + e) = d + e - 53)
    by (unfold fexp, emin; lia).
  rewrite Hfexp. unfold shl_align.
  destruct (d + e - 53 - e) as [|k|k] eqn:Hk; try lia.
  assert (Hkd : Z.pos k = 53 - d) by lia.
  unfold binary_round_aux.
  assert (Hdig : Zdigits2 (Z.pos (Pos.iter xO m k)) = 53).
  { cbn [Zdigits2]. rewrite digits2_pos_iter_xO. fold d.
    rewrite Pos2Z.inj_add. fold d. lia. }
  assert (Hshr : forall l,
             shr_fexp 53 1024 (Z.pos (Pos.iter xO m k)) (d + e - 53) l
             = (shr_record_of_loc (Z.pos (Pos.iter xO m k)) l, d + e - 53)).
  { intro l. unfold shr_fexp. rewrite Hdig.
    replace (fexp 53 1024 (53 + (d + e - 53)) - (d + e - 53)) with 0
      by (unfold fexp, emin; lia).
    reflexivity. }
  rewrite Hshr. cbn [shr_record_of_loc shr_m loc_of_shr_record round_nearest_even].
  rewrite Hshr. cbn [shr_record_of_loc shr_m].
  destruct (Z.leb_spec (d + e - 53) (1024 - 53)) as [_|Hbig]; [|lia].
  eexists _, _. reflexivity.
Qed.

Lemma rate_guard_positive_finite (rate : float32) :
  valid_binary 24 128 rate = true ->
  f32_ltb f32_zero rate && f32_leb rate (f32_of_int 100000) = true ->
  positive_finite (f64_of_f32 rate).
Proof.
  intros Hvalid Hguard. apply andb_prop in Hguard. destruct Hguard as [Hpos Hle].
  destruct rate as [s|s| |s m e]; try discriminate Hpos.
  - destruct s; [discriminate Hpos | discriminate Hle].
  - destruct s; [discriminate Hpos|].
    apply f64_of_f32_positive_finite. exact Hvalid.
Qed.

(** The sample rates of the [sample_rate] parameter, checked one by one *)
Lemma integer_rates_positive_finite :
  all_from (Z.to_nat 100000) 1
           (fun r => match f64_of_f32 (f32_of_int r) with
                     | S754_finite false _ _ => true
                     | _ => false
                     end) = true.
Proof. vm_compute. reflexivity. Qed.

Lemma all_from_spec (n : nat) (f : Z -> bool) :
  forall r0 r, all_from n r0 f = true ->
               r0 <= r < r0 + Z.of_nat n -> f r = true.
Proof.
  induction n as [|n IH]; intros r0 r Hall Hr; [lia|].
  cbn [all_from] in Hall. apply andb_prop in Hall. destruct Hall as [H0 Hrest].
  destruct (Z.eq_dec r r0) as [->|Hne]; [exact H0|].
  apply (IH (r0 + 1) r Hrest). lia.
Qed.

Lemma integer_rate_positive_finite (r : Z) :
  1 <= r <= 100000 -> positive_finite (f64_of_f32 (f32_of_int r)).
Proof.
  intro Hr.
  pose proof (all_from_spec _ _ 1 r integer_rates_positive_finite) as H.
  cbv beta in H. rewrite Z2Nat.id in H by lia. specialize (H ltac:(lia)).
  destruct (f64_of_f32 (f32_of_int r)) as [| | |[|] m e]; try discriminate H.
  exists m, e. reflexivity.
Qed.

(* ================================================================== *)
(** ** The configuration kept by the editor and the parameters *)
(* ================================================================== *)

Ltac unfold_control :=
  unfold control_ok, setNumChannels, setSampleRate, setDataFormat, setScaleFactor,
    thread_setSyncBytes, setSimulationMode, setPort, setBaudRate, disconnect,
    connect, configure_parser, with_format, with_core, with_port, with_link,
    with_parser, with_sampleRate, configure, setSyncBytes, reset, set_buffer,
    valid_config in *;
  cbn [core parser sampleRate threadChannels threadBytes threadScale
       numChannels bytesPerSample scaleFactor useChecksum fst snd] in *.

Lemma new_control_ok : control_ok new_control.
Proof.
  unfold control_ok, valid_config.
  change (numChannels (parser (core new_control))) with 8.
  change (bytesPerSample (parser (core new_control))) with 2.
  refine (conj _ (conj eq_refl (conj eq_refl (conj eq_refl (conj eq_refl _))))).
  - lia.
  - eexists _, _. vm_compute. reflexivity.
Qed.

Lemma handle_event_ok (st : ControlState) (e : ui_event) :
  control_ok st -> event_in_range e -> control_ok (handle_event st e).
Proof.
  intros Hok Hrange.
  destruct e as [channels|rate|scale|h1 h2|port|baud|id|toggle|opens|param];
    cbn [handle_event event_in_range] in *.
  - destruct (Z.ltb_spec 0 channels); destruct (Z.leb_spec channels 256);
      cbn [andb]; try exact Hok.
    unfold_control. destruct Hok as (Hv & Hc & Hb & Hs & Hck & Hrate).
    repeat split; try assumption; lia.
  - destruct (f32_ltb f32_zero rate && f32_leb rate (f32_of_int 100000)) eqn:Hg;
      [|exact Hok].
    pose proof (rate_guard_positive_finite rate Hrange Hg) as Hpf.
    unfold_control. destruct Hok as (Hv & Hc & Hb & Hs & Hck & Hrate).
    repeat split; try assumption; lia.
  - destruct (negb (f32_eqb scale f32_zero)); [|exact Hok].
    unfold_control. destruct Hok as (Hv & Hc & Hb & Hs & Hck & Hrate).
    repeat split; try assumption; lia.
  - unfold_control. exact Hok.
  - unfold_control. exact Hok.
  - unfold_control. exact Hok.
  - unfold_control. destruct Hok as (Hv & Hc & Hb & Hs & Hck & Hrate).
    repeat split; try assumption; lia.
  - unfold_control. exact Hok.
  - unfold isConnected. destruct (connected st).
    + unfold_control. exact Hok.
    + unfold connect. destruct (simulationMode st); [unfold_control; exact Hok|].
      destruct (port_is_empty (portName st)); [exact Hok|].
      destruct (negb opens); unfold_control; exact Hok.
  - destruct param as [v|v|v|s|v|idx|v|h1 h2|];
      cbn [parameterValueChanged] in *; try exact Hok;
      try (unfold_control; exact Hok).
    + unfold_control. destruct Hok as (Hv & Hc & Hb & Hs & Hck & Hrate).
      repeat split; try assumption; lia.
    + pose proof (integer_rate_positive_finite v Hrange) as Hpf.
      unfold_control. destruct Hok as (Hv & Hc & Hb & Hs & Hck & Hrate).
      repeat split; try assumption; lia.
    + unfold_control. destruct Hok as (Hv & Hc & Hb & Hs & Hck & Hrate).
      repeat split; try assumption; lia.
    + unfold_control. destruct Hok as (Hv & Hc & Hb & Hs & Hck & Hrate).
      repeat split; try assumption; lia.
Qed.

Lemma handle_events_ok (events : list ui_event) :
  forall st, control_ok st -> Forall event_in_range events ->
             control_ok (fold_left handle_event events st).
Proof.
  induction events as [|e events IH]; intros st Hok Hall; [exact Hok|].
  apply Forall_cons_iff in Hall. destruct Hall as [He Hall].
  cbn [fold_left]. apply IH; [|exact Hall]. apply handle_event_ok; assumption.
Qed.

(** X10. Whatever the user does in the editor or through the parameters,
    in any order (channel count, sample rate, scale, sync bytes, format,
    port, baud rate, simulate, connect and disconnect), as long as the
    values delivered are inside the registered ranges, the parser keeps a
    valid packet layout (1..256 channels of 2..4 bytes) equal to the
    thread's own fields, the checksum stays on, and the sample rate is a
    positive finite number; the editor's own checks reject a channel count
    outside 1..256 and a rate outside (0, 100000]. *)
Theorem configuration_stays_valid (events : list ui_event) :
  Forall event_in_range events ->
  control_ok (fold_left handle_event events new_control).
Proof.
  intro Hall. exact (handle_events_ok events new_control new_control_ok Hall).
Qed.

Lemma configuration_stays_valid_witness :
  valid_config
    (parser (core (fold_left handle_event
                     [LabelChannels 300; LabelChannels 16; ComboFormat 3;
                      LabelSampleRate (f32_of_int 0);
                      ParameterChanged (ParSampleRate 250);
                      ButtonSimulate true; ButtonConnect false]
                     new_control))).
Proof.
  refine (proj1 (configuration_stays_valid
                   [LabelChannels 300; LabelChannels 16; ComboFormat 3;
                    LabelSampleRate (f32_of_int 0);
                    ParameterChanged (ParSampleRate 250);
                    ButtonSimulate true; ButtonConnect false] _)).
  repeat constructor; cbn; try lia.
Defined.

(* ================================================================== *)
(** ** Connection and start of acquisition *)
(* ================================================================== *)




Lemma startAcquisition_parser (th : CustomICThread) :
  parser (startAcquisition th) = reset (parser th).
Proof. reflexivity. Qed.



(** X13. Leaving simulation mode does not clear the connected flag: after
    simulation was switched on and off with no port open, the thread
    reports an input source, [startAcquisition] succeeds without any
    attempt to open a port, and the first [updateBuffer] of the
    acquisition returns false with nothing published. *)
Theorem simulate_toggle_leaves_connected (st : ControlState)
        (openSucceeds : bool) (bytesRead : list uint8) :
  portOpen st = false ->
  simulationMode (setSimulationMode (setSimulationMode st true) false) = false /\
  connected (setSimulationMode (setSimulationMode st true) false) = true /\
  foundInputSource (setSimulationMode (setSimulationMode st true) false) = true /\
  exists st2,
    startAcquisition_full (setSimulationMode (setSimulationMode st true) false)
                          openSucceeds = (true, st2) /\
    portOpen st2 = false /\
    updateBuffer_full st2 bytesRead = Some (false, st2, None).
Proof.
  intro Hclosed. split; [reflexivity|]. split; [reflexivity|].
  split; [reflexivity|].
  eexists. split; [reflexivity|].
  cbn [with_link with_core setSimulationMode portOpen simulationMode].
  split; [exact Hclosed|].
  unfold updateBuffer_full.
  cbn [with_link with_core setSimulationMode portOpen simulationMode].
  rewrite Hclosed. reflexivity.
Qed.

Lemma simulate_toggle_leaves_connected_witness :
  exists st2,
    startAcquisition_full
      (setSimulationMode (setSimulationMode new_control true) false) false
    = (true, st2) /\
    updateBuffer_full st2 [0xA0] = Some (false, st2, None).
Proof.
  destruct (simulate_toggle_leaves_connected new_control false [0xA0] eq_refl)
    as (_ & _ & _ & st2 & Hstart & _ & Hupdate).
  exists st2. split; [exact Hstart | exact Hupdate].
Defined.

(* ================================================================== *)
(** ** Simulation mode *)
(* ================================================================== *)

(** [(int)(sampleRate / 100.0)] for the integer sample rates of the
    [sample_rate] parameter, checked one by one *)
Lemma integer_rates_samplesPerUpdate :
  all_from (Z.to_nat 100000) 1
           (fun r => samplesPerUpdate (f32_of_int r) =? r / 100) = true.
Proof. vm_compute. reflexivity. Qed.

Lemma samplesPerUpdate_integer_rate (r : Z) :
  1 <= r <= 100000 -> samplesPerUpdate (f32_of_int r) = r / 100.
Proof.
  intro Hr.
  pose proof (all_from_spec _ _ 1 r integer_rates_samplesPerUpdate) as H.
  cbv beta in H. rewrite Z2Nat.id in H by lia. specialize (H ltac:(lia)).
  apply Z.eqb_eq. exact H.
Qed.

Section Simulation.

Variable rate : float64.
Hypothesis Hrate : positive_finite rate.

Let stamp (k : Z) : float64 := f64_div (f64_of_int k) rate.

Lemma simulate_sample_spec (st : ControlState) (s : nat) :
  f64_of_f32 (sampleRate (core st)) = rate ->
  initialTimestamp (core st) = f64_zero \/
  (initialTimestamp (core st) = f64_of_int (-1) /\
   totalSamples (core st) = 0 /\ s = 0%nat) ->
  core (simulate_sample st s)
  = mkCustomICThread (parser (core st)) (sampleRate (core st))
      (totalSamples (core st)) f64_zero
      (array_set (sampleNumbers (core st)) s (totalSamples (core st) + Z.of_nat s))
      (array_set (timestampBuffer (core st)) s
                 (stamp (totalSamples (core st) + Z.of_nat s))).
Proof.
  intros Hr Hanchor. unfold simulate_sample, stamp.
  cbn [with_link with_core core]. rewrite Hr.
  destruct Hanchor as [H0 | (Hm1 & Htot & ->)].
  - rewrite H0. change (f64_ltb f64_zero f64_zero) with false. cbn iota.
    rewrite f64_sub_zero. reflexivity.
  - rewrite Hm1, Htot.
    change (f64_ltb (f64_of_int (-1)) f64_zero) with true. cbn iota.
    change (f64_of_int (0 + Z.of_nat 0)) with f64_zero.
    rewrite (f64_div_zero rate Hrate), f64_sub_zero. reflexivity.
Qed.

Lemma simulate_sample_flags (st : ControlState) (s : nat) :
  simulationMode (simulate_sample st s) = simulationMode st /\
  connected (simulate_sample st s) = connected st /\
  portOpen (simulate_sample st s) = portOpen st.
Proof. repeat split. Qed.

Lemma simulate_loop_spec (n : nat) :
  forall (st : ControlState) (s : nat),
    f64_of_f32 (sampleRate (core st)) = rate ->
    initialTimestamp (core st) = f64_zero \/
    (initialTimestamp (core st) = f64_of_int (-1) /\
     totalSamples (core st) = 0 /\ s = 0%nat) ->
    let st' := simulate_loop st s n in
    parser (core st') = parser (core st) /\
    sampleRate (core st') = sampleRate (core st) /\
    totalSamples (core st') = totalSamples (core st) /\
    (n <> 0%nat -> initialTimestamp (core st') = f64_zero) /\
    (n = 0%nat -> initialTimestamp (core st') = initialTimestamp (core st)) /\
    (simulationMode st' = simulationMode st /\
     connected st' = connected st /\ portOpen st' = portOpen st) /\
    (forall j, (j < s)%nat ->
               sampleNumbers (core st') j = sampleNumbers (core st) j /\
               timestampBuffer (core st') j = timestampBuffer (core st) j) /\
    (forall j, (s <= j < s + n)%nat ->
               sampleNumbers (core st') j = totalSamples (core st) + Z.of_nat j /\
               timestampBuffer (core st') j
               = stamp (totalSamples (core st) + Z.of_nat j)).
Proof.
  induction n as [|n IH]; intros st s Hr Hanchor.
  - cbn. repeat split; intros; try reflexivity; try congruence; lia.
  - cbn [simulate_loop]. cbn zeta.
    pose proof (simulate_sample_spec st s Hr Hanchor) as Hcore.
    pose proof (simulate_sample_flags st s) as (Hf1 & Hf2 & Hf3).
    set (st1 := simulate_sample st s) in *.
    assert (Hr1 : f64_of_f32 (sampleRate (core st1)) = rate)
      by (rewrite Hcore; exact Hr).
    assert (Ha1 : initialTimestamp (core st1) = f64_zero)
      by (rewrite Hcore; reflexivity).
    destruct (IH st1 (S s) Hr1 (or_introl Ha1))
      as (Hp & Hsr & Htot & Hanch & Hanch0 & (Hg1 & Hg2 & Hg3) & Hbelow & Hin).
    rewrite Hcore in Hp, Hsr, Htot, Hbelow, Hin.
    cbn [parser sampleRate totalSamples sampleNumbers timestampBuffer]
      in Hp, Hsr, Htot, Hbelow, Hin.
    refine (conj Hp (conj Hsr (conj Htot (conj _ (conj _ (conj _ (conj _ _))))))).
    + intros _. destruct n as [|n'].
      * rewrite (Hanch0 eq_refl). exact Ha1.
      * apply Hanch. discriminate.
    + discriminate.
    + rewrite Hg1, Hg2, Hg3, Hf1, Hf2, Hf3. repeat split.
    + intros j Hj. destruct (Hbelow j ltac:(lia)) as [-> ->].
      unfold array_set.
      destruct (Nat.eqb_spec j s); [lia | split; reflexivity].
    + intros j Hj. destruct (Nat.eq_dec j s) as [->|Hne].
      * destruct (Hbelow s ltac:(lia)) as [-> ->].
        unfold array_set. rewrite Nat.eqb_refl. split; reflexivity.
      * destruct (Hin j ltac:(lia)) as [-> ->]. split; reflexivity.
Qed.

End Simulation.

Lemma array_prefix_ext {A : Type} (arr : nat -> A) (f : nat -> A) (n : nat) :
  (forall j, (j < n)%nat -> arr j = f j) ->
  array_prefix arr n = map f (seq 0 n).
Proof.
  intro H. unfold array_prefix. apply map_ext_in.
  intros j Hj. apply in_seq in Hj. apply H. lia.
Qed.

(** X14. In simulation mode with an integer sample rate [r] between 1 and
    100000 Hz, one [generateSimulatedData] call publishes exactly [r / 100]
    samples (none below 100 Hz).  Their indices continue the running
    counter, their timestamps are [(double) index / sampleRate], the
    counter advances by [r / 100], and the parser, the sample rate and the
    connection flags are left alone, so the next call continues where this
    one stopped. *)
Theorem simulated_block (st : ControlState) (r : Z) :
  1 <= r <= 100000 ->
  sampleRate (core st) = f32_of_int r ->
  anchored_or_fresh (core st) ->
  exists st' b,
    generateSimulatedData st = Some (st', b) /\
    batchSampleNumbers b
    = map (fun k => totalSamples (core st) + Z.of_nat k)
          (seq 0 (Z.to_nat (r / 100))) /\
    batchTimestamps b
    = map (fun k => f64_div (f64_of_int (totalSamples (core st) + Z.of_nat k))
                            (f64_of_f32 (f32_of_int r)))
          (seq 0 (Z.to_nat (r / 100))) /\
    totalSamples (core st') = totalSamples (core st) + r / 100 /\
    parser (core st') = parser (core st) /\
    sampleRate (core st') = sampleRate (core st) /\
    anchored_or_fresh (core st') /\
    simulationMode st' = simulationMode st /\
    connected st' = connected st /\ portOpen st' = portOpen st.
Proof.
  intros Hr Hrate Hanchor.
  pose proof (samplesPerUpdate_integer_rate r Hr) as Hn.
  pose proof (integer_rate_positive_finite r Hr) as Hpf.
  assert (Hq : 0 <= r / 100 <= 1000)
    by (split; [apply Z.div_pos; lia | apply Z.div_le_upper_bound; lia]).
  unfold generateSimulatedData. rewrite Hrate, Hn.
  assert (Hfit : (bufferSize <? r / 100) = false)
    by (apply Z.ltb_ge; unfold bufferSize; lia).
  rewrite Hfit.
  assert (Hanchor' :
            initialTimestamp (core st) = f64_zero \/
            (initialTimestamp (core st) = f64_of_int (-1) /\
             totalSamples (core st) = 0 /\ 0%nat = 0%nat)).
  { destruct Hanchor as [H0 | [Hm1 Htot]]; [left; exact H0|].
    right. repeat split; assumption. }
  assert (Hr64 : f64_of_f32 (sampleRate (core st)) = f64_of_f32 (f32_of_int r))
    by (rewrite Hrate; reflexivity).
  destruct (simulate_loop_spec (f64_of_f32 (f32_of_int r)) Hpf
                               (Z.to_nat (r / 100)) st 0%nat Hr64 Hanchor')
    as (Hp & Hsr & Htot & Hanch & Hanch0 & (Hg1 & Hg2 & Hg3) & _ & Hin).
  set (st1 := simulate_loop st 0 (Z.to_nat (r / 100))) in *.
  clearbody st1.
  eexists _, _. split; [reflexivity|].
  cbn [batchSampleNumbers batchTimestamps with_core core add_samples
       totalSamples parser sampleRate initialTimestamp
       simulationMode connected portOpen].
  split; [|split; [|split; [|split; [|split; [|split; [|split; [|split]]]]]]].
  - apply array_prefix_ext. intros j Hj. apply (Hin j). lia.
  - apply array_prefix_ext. intros j Hj. apply (Hin j). lia.
  - rewrite Htot. reflexivity.
  - exact Hp.
  - rewrite Hsr. exact Hrate.
  - unfold anchored_or_fresh, add_samples.
    cbn [initialTimestamp totalSamples].
    destruct (Nat.eq_dec (Z.to_nat (r / 100)) 0) as [Hz|Hnz].
    + rewrite (Hanch0 Hz), Htot.
      replace (r / 100) with 0 by lia. rewrite Z.add_0_r. exact Hanchor.
    + left. apply Hanch. exact Hnz.
  - exact Hg1.
  - exact Hg2.
  - exact Hg3.
Qed.

Lemma simulated_block_witness :
  exists st' b,
    generateSimulatedData (setSimulationMode new_control true) = Some (st', b) /\
    batchSampleNumbers b = [0; 1] /\
    totalSamples (core st') = 2.
Proof.
  destruct (simulated_block (setSimulationMode new_control true) 256)
    as (st' & b & Hgen & Hidx & _ & Htot & _).
  - lia.
  - reflexivity.
  - right. split; reflexivity.
  - exists st', b. split; [exact Hgen|]. split; [exact Hidx | exact Htot].
Defined.

(* ================================================================== *)
(** ** Serial line speed and connection flags *)
(* ================================================================== *)

(** X15. The POSIX [open] never rejects a baud rate: every rate outside
    its six cases is opened at 115200 baud, and the six are told apart.  Of
    the rates the editor and the [baud_rate] parameter offer, 460800 and
    921600 are therefore opened at 115200 baud. *)
Theorem posix_baud_fallback (st : ControlState) (b : Z) :
  (~ In b posix_baud_rates ->
   posix_speed (baudRate (handle_event st (ComboBaud b))) = B115200) /\
  (forall a, In a posix_baud_rates -> In b posix_baud_rates ->
             posix_speed a = posix_speed b -> a = b) /\
  (In b offered_baud_rates ->
   (posix_speed (baudRate (handle_event st (ComboBaud b))) = B115200
    <-> b = 115200 \/ b = 460800 \/ b = 921600)).
Proof.
  cbn [handle_event setBaudRate with_port baudRate].
  unfold posix_baud_rates, offered_baud_rates.
  split; [|split].
  - intro Hout. cbn [In] in Hout.
    unfold posix_speed.
    repeat match goal with
           | |- context [match ?x with _ => _ end] => destruct x
           end; try reflexivity; exfalso; apply Hout; tauto.
  - intros a Ha Hb. cbn [In] in Ha, Hb.
    repeat match goal with
           | H : _ \/ _ |- _ => destruct H as [H|H]
           | H : False |- _ => destruct H
           end; subst; cbn; intro Heq; try reflexivity; discriminate Heq.
  - intro Hin. cbn [In] in Hin.
    repeat match goal with
           | H : _ \/ _ |- _ => destruct H as [H|H]
           | H : False |- _ => destruct H
           end; subst; cbn; split; intro H;
      try discriminate H; try tauto;
      repeat match goal with
             | H : _ \/ _ |- _ => destruct H as [H|H]
             end; try discriminate H; reflexivity.
Qed.

Lemma posix_baud_fallback_witness :
  posix_speed (baudRate (handle_event new_control (ComboBaud 921600))) = B115200.
Proof.
  refine (proj1 (posix_baud_fallback new_control 921600) _).
  unfold posix_baud_rates. cbn [In]. intros [H|[H|[H|[H|[H|[H|[]]]]]]];
    discriminate H.
Defined.

Lemma handle_event_link (st : ControlState) (e : ui_event) :
  (portOpen st = true -> connected st = true) ->
  (portOpen (handle_event st e) = true -> connected (handle_event st e) = true) /\
  (enables_simulation e = false ->
   simulationMode st = false -> connected st = portOpen st ->
   simulationMode (handle_event st e) = false /\
   connected (handle_event st e) = portOpen (handle_event st e)).
Proof.
  intro Hinv.
  destruct e as [channels|rate|scale|h1 h2|port|baud|fmt|toggle|opens|param];
    cbn [handle_event enables_simulation].
  - destruct ((0 <? channels) && (channels <=? 256)); split; auto.
  - destruct (f32_ltb f32_zero rate && f32_leb rate (f32_of_int 100000));
      split; auto.
  - destruct (negb (f32_eqb scale f32_zero)); split; auto.
  - split; auto.
  - split; auto.
  - split; auto.
  - split; auto.
  - destruct toggle; cbn; split; auto; discriminate.
  - unfold isConnected, connect.
    destruct (connected st) eqn:Hc.
    + cbn. split; [discriminate|]. intros _ Hs _. split; [exact Hs | reflexivity].
    + destruct (simulationMode st) eqn:Hs.
      * cbn. split; [reflexivity|]. discriminate.
      * destruct (port_is_empty (portName st)).
        -- cbn [snd]. rewrite ?Hc, ?Hs. split; auto.
        -- destruct opens; cbn; rewrite ?Hc, ?Hs; split; auto; discriminate.
  - destruct param as [v|v|v|s|v|f|v|h1 h2|]; cbn [parameterValueChanged];
      try (split; auto; fail).
    destruct v; cbn; split; auto; discriminate.
Qed.

Lemma handle_events_link (events : list ui_event) :
  forall st,
    (portOpen st = true -> connected st = true) ->
    (portOpen (fold_left handle_event events st) = true ->
     connected (fold_left handle_event events st) = true) /\
    (forallb (fun e => negb (enables_simulation e)) events = true ->
     simulationMode st = false -> connected st = portOpen st ->
     simulationMode (fold_left handle_event events st) = false /\
     connected (fold_left handle_event events st)
     = portOpen (fold_left handle_event events st)).
Proof.
  induction events as [|e rest IH]; intros st Hinv.
  - cbn. split; auto.
  - cbn [fold_left forallb].
    destruct (handle_event_link st e Hinv) as [H1 H2].
    destruct (IH (handle_event st e) H1) as [H3 H4].
    split; [exact H3|].
    intros Hall Hs Hc. apply andb_prop in Hall. destruct Hall as [He Hrest].
    apply negb_true_iff in He.
    destruct (H2 He Hs Hc) as [Hs' Hc']. exact (H4 Hrest Hs' Hc').
Qed.

(** X16. Whatever the editor and the parameter system do after
    construction, an open port is always flagged connected.  As long as
    nothing has switched simulation mode on, the converse holds too: the
    thread is in live mode and is flagged connected exactly when the port
    is open. *)
Theorem connected_flag_tracks_port (events : list ui_event) :
  (portOpen (fold_left handle_event events new_control) = true ->
   connected (fold_left handle_event events new_control) = true) /\
  (forallb (fun e => negb (enables_simulation e)) events = true ->
   simulationMode (fold_left handle_event events new_control) = false /\
   connected (fold_left handle_event events new_control)
   = portOpen (fold_left handle_event events new_control)).
Proof.
  destruct (handle_events_link events new_control) as [H1 H2].
  - discriminate.
  - split; [exact H1|]. intro Hall. apply (H2 Hall); reflexivity.
Qed.

Lemma connected_flag_tracks_port_witness :
  connected (fold_left handle_event
               [ComboPort "COM3"%string; ButtonConnect true; LabelChannels 4;
                ButtonConnect false]
               new_control)
  = portOpen (fold_left handle_event
                [ComboPort "COM3"%string; ButtonConnect true; LabelChannels 4;
                 ButtonConnect false]
                new_control).
Proof.
  refine (proj2 (proj2 (connected_flag_tracks_port
                          [ComboPort "COM3"%string; ButtonConnect true;
                           LabelChannels 4; ButtonConnect false]) _)).
  reflexivity.
Defined.
